(** * Verification of the SRT subtitle cleaner (subtitle_cleaner.py)

    The development embeds the program shallowly:
    - Python [str] values are [string]s whose characters are the code
      points below 256;
    - [SubtitleEntry] objects live in a store indexed by object identity,
      and Python lists of entries are lists of references into that store,
      so that the in-place assignments [current.text_lines = ...] and
      [entry.number = i] are visible through every list holding the object;
    - [re.compile(...).finditer] is a backtracking matcher over a small
      regular-expression syntax, with Python's priority order (greedy and
      lazy repetition, ordered alternation, MULTILINE [$]). *)

From Stdlib Require Import ZArith Ascii String List Bool Lia Arith.
From Stdlib Require Import DecimalString.
From Stdlib Require DecimalZ.
From stdpp Require Import base list.
Import ListNotations.

Local Open Scope string_scope.
Local Open Scope list_scope.
Local Open Scope nat_scope.

(** ** Characters and strings *)

Module Str.

Definition nl : ascii := "010"%char.

(** [str.isspace] on one character, which is also what [\s] matches for
    a [str] pattern: TAB..CR, FS..US, SPACE, NEL and NBSP. *)
Definition is_space (a : ascii) : bool :=
  let n := N_of_ascii a in
  (((9 <=? n) && (n <=? 13)) || ((28 <=? n) && (n <=? 32))
   || (n =? 133) || (n =? 160))%N.

(** [\d] for the code points below 256. *)
Definition is_digit (a : ascii) : bool :=
  let n := N_of_ascii a in ((48 <=? n) && (n <=? 57))%N.

(** [.] without DOTALL. *)
Definition not_nl (a : ascii) : bool := negb (Ascii.eqb a nl).

Fixpoint lstrip (s : string) : string :=
  match s with
  | EmptyString => EmptyString
  | String c s' => if is_space c then lstrip s' else s
  end.

Fixpoint rstrip (s : string) : string :=
  match s with
  | EmptyString => EmptyString
  | String c s' =>
      match rstrip s' with
      | EmptyString => if is_space c then EmptyString else String c EmptyString
      | t => String c t
      end
  end.

(** [s.strip()] *)
Definition strip (s : string) : string := rstrip (lstrip s).

(** Truth value of a [str]: non-empty. *)
Definition truthy (s : string) : bool :=
  match s with EmptyString => false | String _ _ => true end.

Fixpoint forallb (p : ascii -> bool) (s : string) : bool :=
  match s with
  | EmptyString => true
  | String c s' => p c && forallb p s'
  end.

(** The line has a character that is not white space. *)
Definition non_blank (s : string) : bool := negb (forallb is_space s).

(** [sep.join(l)] *)
Fixpoint join (sep : string) (l : list string) : string :=
  match l with
  | [] => EmptyString
  | [x] => x
  | x :: l' => (x ++ sep ++ join sep l')%string
  end.

(** [s.split('\n')] *)
Fixpoint split_nl (s : string) : list string :=
  match s with
  | EmptyString => [EmptyString]
  | String c s' =>
      if Ascii.eqb c nl then EmptyString :: split_nl s'
      else match split_nl s' with
           | x :: xs => String c x :: xs
           | [] => [String c EmptyString]
           end
  end.

(** The first [n] characters of [s]. *)
Fixpoint take (n : nat) (s : string) : string :=
  match n, s with
  | S n', String c s' => String c (take n' s')
  | _, _ => EmptyString
  end.

(** [str(n)] for an [int]. *)
Definition of_Z (n : Z) : string := NilZero.string_of_int (Z.to_int n).

Definition digit_val (a : ascii) : Z := Z.of_N (N_of_ascii a) - 48.

Fixpoint int_digits (acc : Z) (s : string) : Z :=
  match s with
  | EmptyString => acc
  | String c s' => int_digits (10 * acc + digit_val c) s'
  end.

(** [int(s)] for a string of decimal digits, as [(\d+)] captures. *)
Definition to_Z (s : string) : Z := int_digits 0 s.

End Str.

(** ** The data model *)

Record SubtitleEntry : Type := mkEntry {
  number : Z;
  start_time : string;
  end_time : string;
  text_lines : list string
}.

(** [any(line.strip() for line in self.text_lines)] negated. *)
Definition is_empty (e : SubtitleEntry) : bool :=
  negb (existsb (fun line => Str.truthy (Str.strip line)) (text_lines e)).

(** [[line for line in self.text_lines if line.strip()]] *)
Definition get_cleaned_lines (e : SubtitleEntry) : list string :=
  List.filter (fun line => Str.truthy (Str.strip line)) (text_lines e).

(** ** The object store *)

Definition ref : Type := nat.

(** The store maps an object identity to the current state of the object. *)
Definition heap : Type := ref -> SubtitleEntry.

Definition upd (h : heap) (r : ref) (e : SubtitleEntry) : heap :=
  fun r' => if Nat.eqb r' r then e else h r'.

(** [obj.text_lines = ls] *)
Definition set_text_lines (h : heap) (r : ref) (ls : list string) : heap :=
  upd h r (mkEntry (number (h r)) (start_time (h r)) (end_time (h r)) ls).

(** [obj.number = n] *)
Definition set_number (h : heap) (r : ref) (n : Z) : heap :=
  upd h r (mkEntry n (start_time (h r)) (end_time (h r)) (text_lines (h r))).

(** The entries a list of references denotes in a store. *)
Definition deref (h : heap) (l : list ref) : list SubtitleEntry := map h l.

(** ** remove_duplicates *)

(** [current_lines and prev_lines and current_lines[0] == prev_lines[-1]] *)
Definition first_matches_last (current_lines prev_lines : list string) : bool :=
  match head current_lines, last prev_lines with
  | Some a, Some b => String.eqb a b
  | _, _ => false
  end.

(** [ls[1:] if len(ls) > 1 else []] *)
Definition drop_first (ls : list string) : list string :=
  if 1 <? length ls then drop 1 ls else [].

(** One iteration of the loop body, for [prev = entries[i-1]] and
    [current = entries[i]]; the state is the store and [result]. *)
Definition rd_step (prev current : ref) (st : heap * list ref)
  : heap * list ref :=
  let '(h, result) := st in
  if is_empty (h prev) || is_empty (h current) then
    (h, result ++ [current])
  else
    let prev_lines := get_cleaned_lines (h prev) in
    let current_lines := get_cleaned_lines (h current) in
    if first_matches_last current_lines prev_lines then
      let h' := set_text_lines h current (drop_first (text_lines (h current))) in
      if is_empty (h' current) then (h', result)
      else (h', result ++ [current])
    else (h, result ++ [current]).

(** The body at index [i]. *)
Definition rd_iter (entries : list ref) (st : heap * list ref) (i : nat)
  : heap * list ref :=
  match entries !! (i - 1), entries !! i with
  | Some prev, Some current => rd_step prev current st
  | _, _ => st
  end.

(** The state after the iterations [1 .. k] of
    [for i in range(1, len(entries))]. *)
Definition rd_run (h : heap) (entries : list ref) (k : nat)
  : heap * list ref :=
  fold_left (rd_iter entries) (seq 1 k) (h, take 1 entries).

Definition remove_duplicates (h : heap) (entries : list ref)
  : heap * list ref :=
  match entries with
  | [] => (h, [])
  | _ :: _ => rd_run h entries (length entries - 1)
  end.

(** ** perform_deep_cleaning *)

(** [for _ in range(n)] with its [break]. *)
Fixpoint clean_loop (n : nat) (h : heap) (cleaned : list ref)
  : heap * list ref :=
  match n with
  | O => (h, cleaned)
  | S n' =>
      let prev_count := length cleaned in
      let '(h', cleaned') := remove_duplicates h cleaned in
      if length cleaned' =? prev_count then (h', cleaned')
      else clean_loop n' h' cleaned'
  end.

(** [for i, entry in enumerate(cleaned, i0): entry.number = i] *)
Fixpoint renumber (h : heap) (i : Z) (cleaned : list ref) : heap :=
  match cleaned with
  | [] => h
  | entry :: rest => renumber (set_number h entry i) (i + 1) rest
  end.

Definition perform_deep_cleaning (h : heap) (entries : list ref)
  : heap * list ref :=
  let '(h1, cleaned) := clean_loop 5 h entries in
  let cleaned := List.filter (fun entry => negb (is_empty (h1 entry))) cleaned in
  (renumber h1 1 cleaned, cleaned).

(** ** format_srt *)

(** The strings one entry contributes to [lines]. *)
Definition entry_lines (e : SubtitleEntry) : list string :=
  [Str.of_Z (number e); (start_time e ++ " --> " ++ end_time e)%string]
    ++ text_lines e ++ [EmptyString].

Definition format_srt (entries : list SubtitleEntry) : string :=
  Str.join (String Str.nl EmptyString) (flat_map entry_lines entries).

(** ** Regular expressions, as [re] runs them *)

Module Re.

Inductive regex : Type :=
| Chr (a : ascii)                         (* a literal character *)
| Cls (p : ascii -> bool)                 (* a character class *)
| Seq (r1 r2 : regex)
| Alt (r1 r2 : regex)                     (* r1|r2, r1 tried first *)
| Opt (r : regex)                         (* r?, greedy *)
| Rep (greedy : bool) (mn : nat) (r : regex)  (* r{mn,} and r{mn,}? *)
| Eol                                     (* $ under MULTILINE *)
| Group (n : nat) (r : regex).            (* capturing group n *)

(** Group number to captured text. *)
Definition caps : Type := nat -> string.

Definition no_caps : caps := fun _ => EmptyString.

Definition set_cap (n : nat) (v : string) (c : caps) : caps :=
  fun m => if Nat.eqb m n then v else c m.

(** A match: the captures and the input left after it. *)
Definition result : Type := caps * string.

Definition cont : Type := string -> caps -> option result.

(** [a <|> b]: the result of [a] if it matched, and otherwise [b]. *)
Notation "a <|> b" :=
  (match a with Some x => Some x | None => b end)
  (at level 55, right associativity, only parsing).

(** Repetition of [body], at least [mn] times.  One unit of [fuel] is
    spent per iteration; a body that consumes input cannot be iterated
    more often than the input is long, which is the fuel [rmatch] gives. *)
Fixpoint rep (body : string -> caps -> cont -> option result)
    (greedy : bool) (fuel mn : nat) (s : string) (c : caps) (k : cont)
  : option result :=
  match fuel with
  | O => match mn with O => k s c | S _ => None end
  | S fuel' =>
      match mn with
      | S mn' => body s c (fun s' c' => rep body greedy fuel' mn' s' c' k)
      | O =>
          if greedy then
            body s c (fun s' c' => rep body greedy fuel' 0 s' c' k) <|> k s c
          else
            k s c <|> body s c (fun s' c' => rep body greedy fuel' 0 s' c' k)
      end
  end.

(** Backtracking matcher in continuation-passing style: [k] is what is
    left of the pattern, and the first success in priority order wins. *)
Fixpoint rmatch (r : regex) (s : string) (c : caps) (k : cont)
  : option result :=
  match r with
  | Chr a =>
      match s with
      | String b s' => if Ascii.eqb b a then k s' c else None
      | EmptyString => None
      end
  | Cls p =>
      match s with
      | String b s' => if p b then k s' c else None
      | EmptyString => None
      end
  | Seq r1 r2 => rmatch r1 s c (fun s' c' => rmatch r2 s' c' k)
  | Alt r1 r2 => rmatch r1 s c k <|> rmatch r2 s c k
  | Opt r1 => rmatch r1 s c k <|> k s c
  | Rep greedy mn r1 => rep (rmatch r1) greedy (S (String.length s)) mn s c k
  | Eol =>
      match s with
      | EmptyString => k s c
      | String b _ => if Ascii.eqb b Str.nl then k s c else None
      end
  | Group n r1 =>
      rmatch r1 s c (fun s' c' =>
        k s' (set_cap n (Str.take (String.length s - String.length s') s) c'))
  end.

(** [pattern.match] at the start of [s]. *)
Definition match_at (r : regex) (s : string) : option result :=
  rmatch r s no_caps (fun s' c' => Some (c', s')).

(** [pattern.finditer(s)]: the leftmost match, then on from its end. *)
Fixpoint finditer_fuel (fuel : nat) (r : regex) (s : string) : list caps :=
  match fuel with
  | O => []
  | S fuel' =>
      match match_at r s with
      | Some (c, s') => c :: finditer_fuel fuel' r s'
      | None =>
          match s with
          | EmptyString => []
          | String _ s' => finditer_fuel fuel' r s'
          end
      end
  end.

Definition finditer (r : regex) (s : string) : list caps :=
  finditer_fuel (S (String.length s)) r s.

End Re.

Import Re.

Declare Scope regex_scope.
Delimit Scope regex_scope with re.
Bind Scope regex_scope with regex.
Infix ">>" := Seq (at level 62, right associativity) : regex_scope.

(** ** parse_srt *)

Definition digit : regex := Cls Str.is_digit.
Definition spaces : regex := Rep true 0 (Cls Str.is_space).

(** [\d{2}:\d{2}:\d{2},\d{3}] *)
Definition timestamp : regex :=
  (digit >> digit >> Chr ":" >> digit >> digit >> Chr ":" >>
   digit >> digit >> Chr "," >> digit >> digit >> digit)%re.

(** [(?:.+\n?)+?] *)
Definition text_block_re : regex :=
  Rep false 1 (Rep true 1 (Cls Str.not_nl) >> Opt (Chr Str.nl))%re.

(** [(?:\n\s*\n|$)] *)
Definition block_end : regex :=
  Alt (Chr Str.nl >> spaces >> Chr Str.nl)%re Eol.

(** [(\d+)\s*\n(TS)\s*-->\s*(TS)\s*\n((?:.+\n?)+?)(?:\n\s*\n|$)] *)
Definition block_pattern : regex :=
  (Group 1 (Rep true 1 digit) >> spaces >> Chr Str.nl >>
   Group 2 timestamp >> spaces >> Chr "-" >> Chr "-" >> Chr ">" >> spaces >>
   Group 3 timestamp >> spaces >> Chr Str.nl >>
   Group 4 text_block_re >>
   block_end)%re.

(** The entry built from one match. *)
Definition entry_of_match (m : caps) : SubtitleEntry :=
  let text_block := m 4 in
  mkEntry (Str.to_Z (m 1)) (m 2) (m 3)
          (List.filter Str.truthy (Str.split_nl text_block)).

Definition parse_srt (content : string) : list SubtitleEntry :=
  map entry_of_match (finditer block_pattern content).

(** The store holding exactly the objects of [es], each identified by its
    position, and the list of these objects. *)
Definition null_entry : SubtitleEntry := mkEntry 0 EmptyString EmptyString [].

Definition load (es : list SubtitleEntry) : heap * list ref :=
  (fun r => nth r es null_entry, seq 0 (length es)).

(** ** Relations used in the statements *)

(** Stores related by trimming leading lines only. *)
Definition trimmed (h h' : heap) : Prop :=
  forall r, start_time (h' r) = start_time (h r) /\
            end_time (h' r) = end_time (h r) /\
            text_lines (h' r) `suffix_of` text_lines (h r).

(** ** Concrete entries used in the examples *)

Module Examples.

Definition entry (n : Z) (ls : list string) : SubtitleEntry :=
  mkEntry n "00:00:00,000" "00:00:01,000" ls.

(** [A B] followed by [B C]. *)
Definition ab_bc : list SubtitleEntry :=
  [entry 1 ["A"; "B"]; entry 2 ["B"; "C"]].

(** [A B] followed by [B B C]. *)
Definition ab_bbc : list SubtitleEntry :=
  [entry 1 ["A"; "B"]; entry 2 ["B"; "B"; "C"]].

(** Three entries with the single line [X]. *)
Definition xxx : list SubtitleEntry :=
  [entry 1 ["X"]; entry 2 ["X"]; entry 3 ["X"]].

(** Entries numbered out of order, one of them blank. *)
Definition mixed : list SubtitleEntry :=
  [entry 7 ["A"]; entry 7 ["   "]; entry (-3) ["A"; "B"]; entry 40 ["B"]].

(** Two well-formed entries without a duplicated line, numbered 5, -2. *)
Definition clean_pair : list SubtitleEntry :=
  [entry 5 ["Hello"; "  world"]; entry (-2) ["Bye"]].

Definition nl : string := String Str.nl EmptyString.

(** A block whose second text line is three spaces. *)
Definition blank_inside : string :=
  ("1" ++ nl ++ "00:00:00,000 --> 00:00:01,000" ++ nl
     ++ "foo" ++ nl ++ "   " ++ nl ++ "bar" ++ nl)%string.

(** A file with the blocks [A B] and [B B C]. *)
Definition ab_bbc_srt : string :=
  ("1" ++ nl ++ "00:00:00,000 --> 00:00:01,000" ++ nl
     ++ "A" ++ nl ++ "B" ++ nl ++ nl
     ++ "2" ++ nl ++ "00:00:00,000 --> 00:00:01,000" ++ nl
     ++ "B" ++ nl ++ "B" ++ nl ++ "C" ++ nl)%string.

End Examples.

(** ** Iterated passes *)

(** The state after [n] applications of [remove_duplicates]. *)
Definition passes (n : nat) (st : heap * list ref) : heap * list ref :=
  Nat.iter n (fun st => remove_duplicates st.1 st.2) st.

(** [[entry for entry in cleaned if not entry.is_empty()]] *)
Definition non_empty_entries (h : heap) (cleaned : list ref) : list ref :=
  List.filter (fun entry => negb (is_empty (h entry))) cleaned.

(** ** Well-formed entries and the text they are written as *)

(** The string has the shape [\d{2}:\d{2}:\d{2},\d{3}]. *)
Definition is_timestamp (s : string) : bool :=
  match s with
  | String h1 (String h2 (String c1 (String m1 (String m2 (String c2
      (String s1 (String s2 (String c3 (String f1 (String f2 (String f3
         EmptyString))))))))))) =>
      Str.is_digit h1 && Str.is_digit h2 && Ascii.eqb c1 ":"
      && Str.is_digit m1 && Str.is_digit m2 && Ascii.eqb c2 ":"
      && Str.is_digit s1 && Str.is_digit s2 && Ascii.eqb c3 ","
      && Str.is_digit f1 && Str.is_digit f2 && Str.is_digit f3
  | _ => false
  end.




(** The entries with the numbers [i, i + 1, ...] in place of their own. *)
Fixpoint renumbered (i : Z) (es : list SubtitleEntry) : list SubtitleEntry :=
  match es with
  | [] => []
  | e :: es' =>
      mkEntry i (start_time e) (end_time e) (text_lines e)
        :: renumbered (i + 1) es'
  end.

(** The lines [ls], each followed by a newline, and then [rest]. *)
Fixpoint lines_app (ls : list string) (rest : string) : string :=
  match ls with
  | [] => rest
  | l :: ls' => (l ++ String Str.nl (lines_app ls' rest))%string
  end.

(** The decimal digits of [str(n)], without the sign. *)
Definition abs_digits (n : Z) : string :=
  match Z.to_int n with
  | Decimal.Pos d => NilZero.string_of_uint d
  | Decimal.Neg d => NilZero.string_of_uint d
  end.

(** One block from its number line on, followed by [rest]. *)
Definition block_text (num : string) (e : SubtitleEntry) (rest : string)
  : string :=
  (num ++ String Str.nl
     (start_time e ++ String " " (String "-" (String "-" (String ">"
        (String " " (end_time e ++ String Str.nl
           (lines_app (text_lines e) rest))))))))%string.

(** What [format_srt] writes, block by block. *)
Fixpoint render (es : list SubtitleEntry) : string :=
  match es with
  | [] => EmptyString
  | e :: es' =>
      block_text (Str.of_Z (number e)) e
        match es' with
        | [] => EmptyString
        | _ :: _ => String Str.nl (render es')
        end
  end.



(** The string is empty or starts with a character outside [p]. *)
Definition head_not (p : ascii -> bool) (s : string) : bool :=
  match s with
  | EmptyString => true
  | String a _ => negb (p a)
  end.


(** ** How a matcher uses its continuation *)

(** The matcher calls its continuation only on inputs that are not longer
    than its own input. *)
Definition suffix_calls (m : string -> caps -> cont -> option result) : Prop :=
  forall s c k1 k2,
    (forall s' c', String.length s' <= String.length s -> k1 s' c' = k2 s' c') ->
    m s c k1 = m s c k2.

(** The matcher calls its continuation only on shorter inputs: it consumes
    at least one character. *)
Definition consuming (m : string -> caps -> cont -> option result) : Prop :=
  forall s c k1 k2,
    (forall s' c', String.length s' < String.length s -> k1 s' c' = k2 s' c') ->
    m s c k1 = m s c k2.

(** ** Lists on which a pass has nothing to do *)

(** What iteration [i] tests on [prev] and [current]: whether it trims. *)
Definition pair_matches (prev current : SubtitleEntry) : bool :=
  negb (is_empty prev || is_empty current)
  && first_matches_last (get_cleaned_lines current) (get_cleaned_lines prev).

(** No entry is trimmed against the entry before it. *)
Fixpoint no_adjacent_match (es : list SubtitleEntry) : bool :=
  match es with
  | e1 :: (e2 :: _) as rest => negb (pair_matches e1 e2) && no_adjacent_match rest
  | _ => true
  end.

(** ** What a match of a pattern is *)

(** [n] matches of [m] in a row. *)
Fixpoint iterated (m : string -> caps -> string -> caps -> Prop) (n : nat)
    (s : string) (c : caps) (s' : string) (c' : caps) : Prop :=
  match n with
  | O => s' = s /\ c' = c
  | S n' => exists s1 c1, m s c s1 c1 /\ iterated m n' s1 c1 s' c'
  end.

(** [matches r s c s' c']: [r] matches a prefix of [s] and leaves [s'],
    turning the captures [c] into [c']. *)
Fixpoint matches (r : regex) (s : string) (c : caps) (s' : string) (c' : caps)
  : Prop :=
  match r with
  | Chr a => s = String a s' /\ c' = c
  | Cls p => exists b, s = String b s' /\ p b = true /\ c' = c
  | Seq r1 r2 => exists s1 c1, matches r1 s c s1 c1 /\ matches r2 s1 c1 s' c'
  | Alt r1 r2 => matches r1 s c s' c' \/ matches r2 s c s' c'
  | Opt r1 => matches r1 s c s' c' \/ (s' = s /\ c' = c)
  | Rep _ mn r1 => exists n, mn <= n /\ iterated (matches r1) n s c s' c'
  | Eol => s' = s /\ c' = c /\ head_not Str.not_nl s = true
  | Group n r1 =>
      exists c1, matches r1 s c s' c1 /\
                 c' = set_cap n (Str.take (String.length s - String.length s') s) c1
  end.

(** The pattern has no capturing group. *)
Fixpoint group_free (r : regex) : bool :=
  match r with
  | Chr _ | Cls _ | Eol => true
  | Seq r1 r2 | Alt r1 r2 => group_free r1 && group_free r2
  | Opt r1 | Rep _ _ r1 => group_free r1
  | Group _ _ => false
  end.

(** ** The limit on integer string conversions *)

(** [sys.get_int_max_str_digits()], which the program does not change. *)
Definition int_max_str_digits : Z := 4300.

(** The message of the [ValueError] of [int(s)]. *)
Definition int_error (digits : nat) : string :=
  ("Exceeds the limit (4300 digits) for integer string conversion: value has "
     ++ Str.of_Z (Z.of_nat digits)
     ++ " digits; use sys.set_int_max_str_digits() to increase the limit")%string.

(** The message of the [ValueError] of [str(n)]. *)
Definition str_error : string :=
  "Exceeds the limit (4300 digits) for integer string conversion; use sys.set_int_max_str_digits() to increase the limit".

(** [int(s)] for a string of digits: the number, or the message of the
    exception raised for more digits than the limit. *)
Definition int_checked (s : string) : string + Z :=
  if (int_max_str_digits <? Z.of_nat (String.length s))%Z
  then inl (int_error (String.length s))
  else inr (Str.to_Z s).

(** [str(n)]: the text, or the message of the exception raised for more
    digits than the limit. *)
Definition str_checked (n : Z) : string + string :=
  if (int_max_str_digits <? Z.of_nat (String.length (abs_digits n)))%Z
  then inl str_error
  else inr (Str.of_Z n).

(** The loop of [parse_srt] over the matches, with the exception of
    [int(match.group(1))]: the first match with too many digits ends it. *)
Fixpoint entries_of_matches (ms : list caps) : string + list SubtitleEntry :=
  match ms with
  | [] => inr []
  | m :: ms' =>
      match int_checked (m 1) with
      | inl msg => inl msg
      | inr number =>
          let entry :=
            mkEntry number (m 2) (m 3)
                    (List.filter Str.truthy (Str.split_nl (m 4))) in
          match entries_of_matches ms' with
          | inl msg => inl msg
          | inr entries => inr (entry :: entries)
          end
      end
  end.

(** [parse_srt] as [main] calls it: the entries, or the message of the
    exception it raises. *)
Definition parse_srt_checked (content : string) : string + list SubtitleEntry :=
  entries_of_matches (finditer block_pattern content).

(** The loop of [format_srt] building [lines], with the exception of
    [str(entry.number)]. *)
Fixpoint lines_checked (entries : list SubtitleEntry) : string + list string :=
  match entries with
  | [] => inr []
  | entry :: rest =>
      match str_checked (number entry) with
      | inl msg => inl msg
      | inr num =>
          match lines_checked rest with
          | inl msg => inl msg
          | inr lines =>
              inr ([num; (start_time entry ++ " --> " ++ end_time entry)%string]
                     ++ text_lines entry ++ [EmptyString] ++ lines)
          end
      end
  end.

(** [format_srt] as [main] calls it. *)
Definition format_srt_checked (entries : list SubtitleEntry) : string + string :=
  match lines_checked entries with
  | inl msg => inl msg
  | inr lines => inr (Str.join (String Str.nl EmptyString) lines)
  end.

(** ** main *)

Module Driver.

(** File accesses, in the order they are attempted. *)
Inductive access : Type :=
| Read (path : string)
| Write (path content : string).

(** The file system as [main] sees it: reading a file gives its decoded
    content or raises, writing raises or succeeds; a raised exception is
    represented by its message. *)
Record env : Type := mkEnv {
  read_file : string -> string + string;
  write_file : string -> string -> option string
}.

(** What has been printed and which files have been accessed so far. *)
Record world : Type := mkWorld {
  printed : list string;
  accessed : list access
}.

(** A statement of the [try] block: it changes the world and returns a
    value or raises an exception, given by its message. *)
Definition io (A : Type) : Type := world -> world * (string + A).

Definition bind {A B : Type} (m : io A) (f : A -> io B) : io B :=
  fun w =>
    let '(w', r) := m w in
    match r with
    | inl msg => (w', inl msg)
    | inr a => f a w'
    end.

(** A computation without effect that returns or raises. *)
Definition raising {A : Type} (r : string + A) : io A := fun w => (w, r).

(** [print(s)] *)
Definition print (s : string) : io unit :=
  fun w => (mkWorld (printed w ++ [s]) (accessed w), inr tt).

(** [with open(path, 'r', ...) as f: f.read()] *)
Definition read_text (E : env) (path : string) : io string :=
  fun w => (mkWorld (printed w) (accessed w ++ [Read path]), read_file E path).

(** [with open(path, 'w', ...) as f: f.write(content)] *)
Definition write_text (E : env) (path content : string) : io unit :=
  fun w =>
    (mkWorld (printed w) (accessed w ++ [Write path content]),
     match write_file E path content with
     | Some msg => inl msg
     | None => inr tt
     end).

Record outcome : Type := mkOutcome {
  stdout : list string;
  status : Z;
  accesses : list access
}.

Definition usage : string :=
  "Usage: python subtitle_cleaner_v2.py input.srt output.srt".

Definition error_line (msg : string) : string :=
  ("Error processing file: " ++ msg)%string.

Definition success_line (input_file output_file : string) : string :=
  ("Successfully cleaned subtitles from " ++ input_file ++ " to "
     ++ output_file)%string.

(** The body of the [try] block. *)
Definition try_body (E : env) (input_file output_file : string) : io unit :=
  bind (read_text E input_file) (fun content =>
  bind (raising (parse_srt_checked content)) (fun entries =>
  let original_count := length entries in
  let '(h, refs) := load entries in
  let '(h', cleaned_entries) := perform_deep_cleaning h refs in
  bind (raising (format_srt_checked (deref h' cleaned_entries)))
       (fun cleaned_content =>
  bind (write_text E output_file cleaned_content) (fun _ =>
  bind (print (success_line input_file output_file)) (fun _ =>
  bind (raising (str_checked (Z.of_nat original_count))) (fun original =>
  bind (raising (str_checked (Z.of_nat (length cleaned_entries))))
       (fun cleaned =>
  print ("Original entries: " ++ original ++ ", Cleaned entries: "
           ++ cleaned)%string))))))).

(** [argv] is [sys.argv], the script name included. *)
Definition main (E : env) (argv : list string) : outcome :=
  if negb (length argv =? 3) then
    mkOutcome [usage] 1 []
  else
    let input_file := nth 1 argv EmptyString in
    let output_file := nth 2 argv EmptyString in
    let '(w, r) := try_body E input_file output_file (mkWorld [] []) in
    match r with
    | inl msg => mkOutcome (printed w ++ [error_line msg]) 1 (accessed w)
    | inr _ => mkOutcome (printed w) 0 (accessed w)
    end.

(** The exception the [try] block raises, if any. *)
Definition raised (E : env) (argv : list string) : option string :=
  match (try_body E (nth 1 argv EmptyString) (nth 2 argv EmptyString)
           (mkWorld [] [])).2 with
  | inl msg => Some msg
  | inr _ => None
  end.

End Driver.

(** A file system in which every file reads as [content] and every write
    succeeds. *)
Definition constant_files (content : string) : Driver.env :=
  Driver.mkEnv (fun _ => inr content) (fun _ _ => None).

(** A file whose only block has a number of 4301 digits. *)
Definition long_number_srt : string :=
  (string_of_list_ascii (repeat "1"%char 4301)
     ++ String Str.nl
          ("00:00:00,000 --> 00:00:01,000" ++ String Str.nl
             ("A" ++ String Str.nl EmptyString)))%string.
(** * Properties *)

(** ** Strings *)

Lemma truthy_rstrip (s : string) :
  Str.truthy (Str.rstrip s) = negb (Str.forallb Str.is_space s).
Proof.
  induction s as [|c s IH]; simpl; [reflexivity|].
  destruct (Str.rstrip s) eqn:E; simpl in *.
  - apply (f_equal negb) in IH. rewrite negb_involutive in IH. simpl in IH.
    rewrite <- IH, andb_true_r. destruct (Str.is_space c); reflexivity.
  - apply (f_equal negb) in IH. rewrite negb_involutive in IH. simpl in IH.
    rewrite <- IH, andb_false_r. reflexivity.
Qed.

Lemma forallb_lstrip (s : string) :
  Str.forallb Str.is_space (Str.lstrip s) = Str.forallb Str.is_space s.
Proof.
  induction s as [|c s IH]; simpl; [reflexivity|].
  destruct (Str.is_space c) eqn:E; simpl; [exact IH|].
  rewrite E. reflexivity.
Qed.

(** [line.strip()] is true exactly for the lines with a character that is
    not white space. *)
Lemma truthy_strip (s : string) :
  Str.truthy (Str.strip s) = Str.non_blank s.
Proof.
  unfold Str.strip, Str.non_blank. rewrite truthy_rstrip, forallb_lstrip.
  reflexivity.
Qed.

Lemma is_empty_blank (e : SubtitleEntry) :
  is_empty e = true <->
  Forall (fun line => Str.forallb Str.is_space line = true) (text_lines e).
Proof.
  unfold is_empty. rewrite negb_true_iff. destruct e as [n s t ls]; simpl.
  induction ls as [|l ls IH]; simpl.
  - split; [constructor | reflexivity].
  - rewrite orb_false_iff, IH, truthy_strip. unfold Str.non_blank.
    rewrite negb_false_iff. split.
    + intros [H1 H2]. constructor; assumption.
    + intros H. inversion H; subst. split; assumption.
Qed.

Lemma drop_first_tail (ls : list string) : drop_first ls = tail ls.
Proof.
  unfold drop_first. destruct ls as [|x [|y ls]]; reflexivity.
Qed.

Lemma is_empty_cleaned (e : SubtitleEntry) :
  is_empty e = true <-> get_cleaned_lines e = [].
Proof.
  unfold is_empty, get_cleaned_lines. rewrite negb_true_iff.
  induction (text_lines e) as [|l ls IH]; simpl; [tauto|].
  destruct (Str.truthy (Str.strip l)); simpl; [|exact IH].
  split; discriminate.
Qed.

(** ** The store *)

Lemma upd_same (h : heap) (r : ref) (e : SubtitleEntry) : upd h r e r = e.
Proof. unfold upd. rewrite Nat.eqb_refl. reflexivity. Qed.

Lemma upd_other (h : heap) (r r' : ref) (e : SubtitleEntry) :
  r' <> r -> upd h r e r' = h r'.
Proof.
  intros H. unfold upd. destruct (Nat.eqb_spec r' r); [contradiction|reflexivity].
Qed.

(** ** One pass, iteration by iteration *)

Lemma rd_run_S (h : heap) (entries : list ref) (k : nat) :
  rd_run h entries (S k) = rd_iter entries (rd_run h entries k) (S k).
Proof.
  unfold rd_run. rewrite seq_S, fold_left_app. reflexivity.
Qed.

(** What one iteration can do to the store and to [result]. *)
Lemma rd_step_spec (prev current : ref) (h : heap) (result : list ref) :
  forall h' result', rd_step prev current (h, result) = (h', result') ->
  (forall r, r <> current -> h' r = h r) /\
  number (h' current) = number (h current) /\
  start_time (h' current) = start_time (h current) /\
  end_time (h' current) = end_time (h current) /\
  ((h' = h /\ result' = result ++ [current]) \/
   (is_empty (h prev) = false /\ is_empty (h current) = false /\
    first_matches_last (get_cleaned_lines (h current))
                       (get_cleaned_lines (h prev)) = true /\
    text_lines (h' current) = drop_first (text_lines (h current)) /\
    ((is_empty (h' current) = true /\ result' = result) \/
     (is_empty (h' current) = false /\ result' = result ++ [current])))).
Proof.
  intros h' result'. unfold rd_step.
  destruct (is_empty (h prev)) eqn:Ep; simpl.
  { intros [= <- <-]. repeat split; auto. }
  destruct (is_empty (h current)) eqn:Ec; simpl.
  { intros [= <- <-]. repeat split; auto. }
  destruct (first_matches_last _ _) eqn:Em.
  2:{ intros [= <- <-]. repeat split; auto. }
  set (hh := set_text_lines h current (drop_first (text_lines (h current)))).
  assert (Hs : hh current
               = mkEntry (number (h current)) (start_time (h current))
                   (end_time (h current)) (drop_first (text_lines (h current)))).
  { unfold hh, set_text_lines. apply upd_same. }
  assert (Ho : forall r, r <> current -> hh r = h r).
  { intros r Hr. unfold hh, set_text_lines. apply upd_other, Hr. }
  destruct (is_empty (hh current)) eqn:Ee; intros [= <- <-];
    rewrite ?Hs; simpl; repeat split; auto; right; repeat split; auto;
    rewrite <- Hs; auto.
Qed.

Lemma trimmed_refl (h : heap) : trimmed h h.
Proof. intros r. repeat split; reflexivity. Qed.

Lemma trimmed_trans (h1 h2 h3 : heap) :
  trimmed h1 h2 -> trimmed h2 h3 -> trimmed h1 h3.
Proof.
  intros H12 H23 r. destruct (H12 r) as (a & b & c), (H23 r) as (a' & b' & c').
  repeat split; [congruence | congruence | etrans; eassumption].
Qed.

Lemma drop_first_suffix (ls : list string) : drop_first ls `suffix_of` ls.
Proof.
  rewrite drop_first_tail. destruct ls as [|x ls]; simpl.
  - reflexivity.
  - apply suffix_cons_r. reflexivity.
Qed.

Lemma rd_step_trimmed (prev current : ref) (h : heap) (result : list ref) :
  trimmed h (rd_step prev current (h, result)).1.
Proof.
  destruct (rd_step prev current (h, result)) as [h' res'] eqn:E.
  apply rd_step_spec in E as (Ho & Hn & Hs & He & Hc). simpl.
  intros r. destruct (Nat.eq_dec r current) as [->|Hr].
  - repeat split; auto.
    destruct Hc as [[-> _]|(_ & _ & _ & -> & _)];
      [reflexivity | apply drop_first_suffix].
  - rewrite Ho by assumption. repeat split; reflexivity.
Qed.

Lemma rd_step_result (prev current : ref) (h : heap) (result : list ref) :
  let result' := (rd_step prev current (h, result)).2 in
  result' = result \/ result' = result ++ [current].
Proof.
  destruct (rd_step prev current (h, result)) as [h' res'] eqn:E.
  apply rd_step_spec in E as (_ & _ & _ & _ & Hc). simpl.
  destruct Hc as [[_ ->]|(_ & _ & _ & _ & [[_ ->]|[_ ->]])]; auto.
Qed.

Lemma rd_run_bound (h : heap) (entries : list ref) (k : nat) :
  length entries <= S k ->
  rd_run h entries (S k) = rd_run h entries k.
Proof.
  intros Hk. rewrite rd_run_S. unfold rd_iter.
  rewrite (lookup_ge_None_2 entries (S k)) by lia.
  destruct (entries !! (S k - 1)); reflexivity.
Qed.

(** After [k] iterations: the store is trimmed, only the entries at the
    indices [1 .. k] may have changed, and [result] is a subsequence of the
    first [k + 1] entries. *)
Lemma rd_run_inv (h : heap) (entries : list ref) (k : nat) :
  let '(hk, res) := rd_run h entries k in
  trimmed h hk /\
  (forall r, r ∉ drop 1 (take (S k) entries) -> hk r = h r) /\
  res `sublist_of` take (S k) entries /\
  take 1 res = take 1 entries.
Proof.
  induction k as [|k IH].
  - unfold rd_run. simpl. split_and!; auto using trimmed_refl.
    destruct entries; reflexivity.
  - destruct (le_lt_dec (length entries) (S k)) as [Hl|Hl].
    { rewrite rd_run_bound by assumption.
      destruct (rd_run h entries k) as [hk res].
      destruct IH as (Ht & Ho & Hs & H1).
      rewrite (take_ge entries (S (S k))) by lia.
      rewrite (take_ge entries (S k)) in Ho, Hs by lia.
      split_and!; assumption. }
    rewrite rd_run_S. destruct (rd_run h entries k) as [hk res].
    destruct IH as (Ht & Ho & Hs & H1).
    unfold rd_iter. replace (S k - 1) with k by lia.
    destruct (lookup_lt_is_Some_2 entries k) as [prev Hp]; [lia|].
    destruct (lookup_lt_is_Some_2 entries (S k)) as [cur Hc]; [lia|].
    rewrite Hp, Hc.
    rewrite (take_S_r entries (S k) cur Hc).
    pose proof (rd_step_trimmed prev cur hk res) as Ht'.
    pose proof (rd_step_result prev cur hk res) as Hr'.
    destruct (rd_step prev cur (hk, res)) as [h' res'] eqn:E.
    apply rd_step_spec in E as (Ho' & _).
    simpl in Ht', Hr'. split_and!.
    + eapply trimmed_trans; eassumption.
    + intros r Hr. rewrite drop_app_le in Hr by (rewrite length_take; lia).
      rewrite elem_of_app, list_elem_of_singleton in Hr.
      rewrite Ho' by tauto. apply Ho. tauto.
    + destruct Hr' as [->| ->].
      * apply sublist_inserts_r, Hs.
      * apply sublist_app; [exact Hs | reflexivity].
    + destruct Hr' as [->| ->]; [exact H1|].
      rewrite <- H1. destruct res as [|x res]; [|reflexivity].
      destruct entries; [simpl in Hl; lia | discriminate H1].
Qed.

Lemma first_matches_last_eq (cl pl : list string) :
  cl <> [] -> pl <> [] ->
  first_matches_last cl pl = true <-> head cl = last pl.
Proof.
  intros Hc Hp. unfold first_matches_last.
  destruct (head cl) as [a|] eqn:Ea.
  2:{ destruct cl; [contradiction | discriminate]. }
  destruct (last pl) as [b|] eqn:Eb.
  2:{ apply last_None in Eb. contradiction. }
  rewrite String.eqb_eq. split; [intros ->; reflexivity | intros [= ->]; reflexivity].
Qed.

(** ** What one iteration does to a pair of consecutive non-empty entries *)

(** Iteration [i] of a pass of [remove_duplicates]: let [prev] and [current] be the
    entries at the indices [i - 1] and [i], both with a non-empty line when
    iteration [i] starts.  If the first non-empty line of [current] equals
    the last non-empty line of [prev], the first raw line of [current] is
    removed (nothing is left of a single raw line), the other fields and the
    other objects are untouched, and [current] is appended to [result]
    exactly when it still has a non-empty line.  If the two lines differ,
    the store is unchanged and [current] is appended. *)
Lemma remove_duplicates_pair (h : heap) (entries : list ref) (i : nat)
    (prev current : ref) :
  let hi := (rd_run h entries (i - 1)).1 in
  let res := (rd_run h entries (i - 1)).2 in
  let h' := (rd_run h entries i).1 in
  let res' := (rd_run h entries i).2 in
  1 <= i ->
  entries !! (i - 1) = Some prev ->
  entries !! i = Some current ->
  is_empty (hi prev) = false ->
  is_empty (hi current) = false ->
  (head (get_cleaned_lines (hi current)) = last (get_cleaned_lines (hi prev)) ->
     text_lines (h' current) = tail (text_lines (hi current)) /\
     (length (text_lines (hi current)) = 1 -> text_lines (h' current) = []) /\
     number (h' current) = number (hi current) /\
     start_time (h' current) = start_time (hi current) /\
     end_time (h' current) = end_time (hi current) /\
     (forall r, r <> current -> h' r = hi r) /\
     (is_empty (h' current) = true -> res' = res) /\
     (is_empty (h' current) = false -> res' = res ++ [current]))
  /\
  (head (get_cleaned_lines (hi current)) <> last (get_cleaned_lines (hi prev)) ->
     h' = hi /\ res' = res ++ [current]).
Proof.
  intros hi res h' res' Hi Hp Hc Ep Ec.
  assert (Hrun : rd_run h entries i = rd_step prev current (hi, res)).
  { destruct i as [|i]; [lia|]. rewrite rd_run_S. unfold rd_iter.
    rewrite Hp, Hc. unfold hi, res. replace (S i - 1) with i by lia.
    destruct (rd_run h entries i); reflexivity. }
  assert (Hcl : get_cleaned_lines (hi current) <> []).
  { intros E. apply is_empty_cleaned in E. congruence. }
  assert (Hpl : get_cleaned_lines (hi prev) <> []).
  { intros E. apply is_empty_cleaned in E. congruence. }
  pose proof (first_matches_last_eq _ _ Hcl Hpl) as Hm.
  assert (Eh : h' = (rd_step prev current (hi, res)).1)
    by (unfold h'; rewrite Hrun; reflexivity).
  assert (Er : res' = (rd_step prev current (hi, res)).2)
    by (unfold res'; rewrite Hrun; reflexivity).
  rewrite Eh, Er. clear Eh Er Hrun. unfold rd_step. rewrite Ep, Ec. simpl.
  destruct (first_matches_last _ _) eqn:Ef.
  - split; [intros _ | intros Hne; exfalso; apply Hne, Hm; reflexivity].
    set (hh := set_text_lines hi current (drop_first (text_lines (hi current)))).
    assert (Hs : hh current
                 = mkEntry (number (hi current)) (start_time (hi current))
                     (end_time (hi current)) (tail (text_lines (hi current)))).
    { unfold hh, set_text_lines. rewrite upd_same, drop_first_tail. reflexivity. }
    assert (Ho : forall r, r <> current -> hh r = hi r).
    { intros r Hr. unfold hh, set_text_lines. apply upd_other, Hr. }
    destruct (is_empty (hh current)) eqn:Ee; simpl; rewrite Hs; simpl;
      split_and!; auto; try congruence;
      intros Hl; destruct (text_lines (hi current)) as [|x [|y l]];
      simpl in *; congruence.
  - split; [intros Heq; apply Hm in Heq; discriminate | auto].
Qed.

Lemma remove_duplicates_pair_witness :
  let h := (load Examples.ab_bc).1 in
  text_lines ((rd_run h [0; 1] 1).1 1) = ["C"] /\
  (rd_run h [0; 1] 1).2 = [0; 1].
Proof.
  intros h.
  destruct (remove_duplicates_pair h [0; 1] 1 0 1) as [H _];
    [lia | reflexivity | reflexivity | reflexivity | reflexivity |].
  destruct (H eq_refl) as (Ht & _ & _ & _ & _ & _ & _ & Hr).
  split; [exact Ht | apply Hr; reflexivity].
Defined.

(** ** C1: the state of the previous entry when it is compared *)

Lemma last_filter_tail (p : string -> bool) (ls : list string) :
  List.filter p (tail ls) <> [] ->
  last (List.filter p (tail ls)) = last (List.filter p ls).
Proof.
  destruct ls as [|x ls]; simpl; [reflexivity|].
  intros Hne. destruct (p x); [|reflexivity].
  destruct (List.filter p ls) as [|y l]; [contradiction | reflexivity].
Qed.

Lemma NoDup_not_in_take (entries : list ref) (i : nat) (r : ref) :
  NoDup entries -> entries !! i = Some r -> r ∉ take i entries.
Proof.
  intros Hnd Hi Hin. apply elem_of_take in Hin as (j & Hj & Hlt).
  pose proof (NoDup_lookup _ _ _ _ Hnd Hi Hj). lia.
Qed.




(** ** Whole passes and the cleaning loop *)

Lemma remove_duplicates_inv (h : heap) (entries : list ref) :
  trimmed h (remove_duplicates h entries).1 /\
  (remove_duplicates h entries).2 `sublist_of` entries.
Proof.
  unfold remove_duplicates. destruct entries as [|e0 rest].
  - split; [apply trimmed_refl | reflexivity].
  - pose proof (rd_run_inv h (e0 :: rest) (length (e0 :: rest) - 1)) as H.
    destruct (rd_run h (e0 :: rest) (length (e0 :: rest) - 1)) as [hk res].
    destruct H as (Ht & _ & Hs & _). rewrite take_ge in Hs by (simpl; lia).
    split; assumption.
Qed.

Lemma clean_loop_inv (n : nat) (h : heap) (entries : list ref) :
  trimmed h (clean_loop n h entries).1 /\
  (clean_loop n h entries).2 `sublist_of` entries.
Proof.
  revert h entries. induction n as [|n IH]; intros h entries; simpl.
  - split; [apply trimmed_refl | reflexivity].
  - pose proof (remove_duplicates_inv h entries) as [Ht Hs].
    destruct (remove_duplicates h entries) as [h' cleaned']. simpl in Ht, Hs.
    destruct (length cleaned' =? length entries); [split; assumption|].
    destruct (IH h' cleaned') as [Ht' Hs'].
    split; [eapply trimmed_trans; eassumption | etrans; eassumption].
Qed.

Lemma non_empty_entries_sublist (h : heap) (l : list ref) :
  non_empty_entries h l `sublist_of` l.
Proof.
  unfold non_empty_entries. induction l as [|x l IH]; simpl; [reflexivity|].
  destruct (negb (is_empty (h x))); [apply sublist_skip | apply sublist_cons];
    exact IH.
Qed.

Lemma set_number_fields (h : heap) (r : ref) (n : Z) (r' : ref) :
  start_time (set_number h r n r') = start_time (h r') /\
  end_time (set_number h r n r') = end_time (h r') /\
  text_lines (set_number h r n r') = text_lines (h r').
Proof.
  unfold set_number. destruct (Nat.eq_dec r' r) as [->|Hne].
  - rewrite upd_same. auto.
  - rewrite upd_other by assumption. auto.
Qed.

Lemma renumber_fields (l : list ref) (h : heap) (i : Z) (r : ref) :
  start_time (renumber h i l r) = start_time (h r) /\
  end_time (renumber h i l r) = end_time (h r) /\
  text_lines (renumber h i l r) = text_lines (h r).
Proof.
  revert h i. induction l as [|x l IH]; intros h i; simpl; [auto|].
  destruct (IH (set_number h x i) (i + 1)%Z) as (a & b & c).
  destruct (set_number_fields h x i r) as (a' & b' & c').
  split_and!; congruence.
Qed.

Lemma renumber_is_empty (l : list ref) (h : heap) (i : Z) (r : ref) :
  is_empty (renumber h i l r) = is_empty (h r).
Proof.
  unfold is_empty. destruct (renumber_fields l h i r) as (_ & _ & ->).
  reflexivity.
Qed.

Lemma perform_deep_cleaning_eq (h : heap) (entries : list ref) :
  perform_deep_cleaning h entries
  = (renumber (clean_loop 5 h entries).1 1
       (non_empty_entries (clean_loop 5 h entries).1 (clean_loop 5 h entries).2),
     non_empty_entries (clean_loop 5 h entries).1 (clean_loop 5 h entries).2).
Proof.
  unfold perform_deep_cleaning. destruct (clean_loop 5 h entries); reflexivity.
Qed.

Lemma deep_cleaning_sublist (h : heap) (entries : list ref) :
  (perform_deep_cleaning h entries).2 `sublist_of` entries.
Proof.
  rewrite perform_deep_cleaning_eq. cbn [snd].
  etrans; [apply non_empty_entries_sublist | apply clean_loop_inv].
Qed.

(** ** C9: the output is a trimmed subsequence of the input *)

(** C9. The list returned by [perform_deep_cleaning] is an order-preserving
    subsequence of the input list (hence not longer); every entry in it is
    an input entry with the same start and end time, and its text lines are
    a suffix of the lines it had in the input. *)
Theorem deep_cleaning_subsequence (h : heap) (entries : list ref) :
  let h' := (perform_deep_cleaning h entries).1 in
  let out := (perform_deep_cleaning h entries).2 in
  out `sublist_of` entries /\
  length out <= length entries /\
  Forall (fun r => start_time (h' r) = start_time (h r) /\
                   end_time (h' r) = end_time (h r) /\
                   text_lines (h' r) `suffix_of` text_lines (h r)) out.
Proof.
  intros h' out. unfold h', out.
  pose proof (deep_cleaning_sublist h entries) as Hsub.
  rewrite perform_deep_cleaning_eq in *. cbn [fst snd] in *.
  destruct (clean_loop_inv 5 h entries) as [Ht _].
  split_and!; [exact Hsub | apply sublist_length, Hsub |].
  apply Forall_forall. intros r _.
  destruct (renumber_fields
              (non_empty_entries (clean_loop 5 h entries).1
                 (clean_loop 5 h entries).2)
              (clean_loop 5 h entries).1 1 r) as (-> & -> & ->).
  apply Ht.
Qed.

(** ** C6: no empty entry survives *)

Lemma is_empty_forallb (e : SubtitleEntry) :
  is_empty e = forallb (Str.forallb Str.is_space) (text_lines e).
Proof.
  unfold is_empty. induction (text_lines e) as [|l ls IH]; simpl; [reflexivity|].
  rewrite negb_orb, IH, truthy_strip. unfold Str.non_blank.
  rewrite negb_involutive. reflexivity.
Qed.

Lemma is_empty_suffix (e e' : SubtitleEntry) :
  text_lines e' `suffix_of` text_lines e ->
  is_empty e = true -> is_empty e' = true.
Proof.
  intros [k Hk]. rewrite !is_empty_forallb, Hk, forallb_app, andb_true_iff.
  tauto.
Qed.

(** C6. No entry returned by [perform_deep_cleaning] is empty, so none has
    an empty list of lines.  An entry is empty exactly when each of its raw
    lines consists of white space only; an entry whose only line is three
    spaces is empty, and an entry that is empty in the input is not in the
    output. *)
Theorem no_empty_output (h : heap) (entries : list ref) :
  let h' := (perform_deep_cleaning h entries).1 in
  let out := (perform_deep_cleaning h entries).2 in
  Forall (fun r => is_empty (h' r) = false /\ text_lines (h' r) <> []) out /\
  (forall e, is_empty e = forallb (Str.forallb Str.is_space) (text_lines e)) /\
  (forall e, is_empty e = true <->
             Forall (fun line => Str.non_blank line = false) (text_lines e)) /\
  (forall n s t, is_empty (mkEntry n s t ["   "]) = true) /\
  Forall (fun r => is_empty (h r) = true -> r ∉ out) entries.
Proof.
  intros h' out. unfold h', out. rewrite perform_deep_cleaning_eq. cbn [fst snd].
  set (h1 := (clean_loop 5 h entries).1).
  set (cl := (clean_loop 5 h entries).2).
  assert (Hout : forall r, r ∈ non_empty_entries h1 cl -> is_empty (h1 r) = false).
  { intros r Hr. apply list_elem_of_In in Hr. unfold non_empty_entries in Hr.
    apply filter_In in Hr as [_ Hr]. apply negb_true_iff in Hr. exact Hr. }
  split_and!.
  - apply Forall_forall. intros r Hr. rewrite renumber_is_empty.
    destruct (renumber_fields (non_empty_entries h1 cl) h1 1 r) as (_ & _ & ->).
    specialize (Hout r Hr). split; [exact Hout|].
    intros E. unfold is_empty in Hout. rewrite E in Hout. discriminate.
  - apply is_empty_forallb.
  - intros e. rewrite is_empty_blank. unfold Str.non_blank.
    split; intros H; eapply Forall_impl; try exact H; simpl; intros l Hl.
    + rewrite Hl. reflexivity.
    + apply negb_false_iff in Hl. exact Hl.
  - reflexivity.
  - apply Forall_forall. intros r _ He Hin.
    specialize (Hout r Hin).
    destruct (clean_loop_inv 5 h entries) as [Ht _].
    destruct (Ht r) as (_ & _ & Hsfx).
    pose proof (is_empty_suffix _ _ Hsfx He) as He'. fold h1 in He'.
    congruence.
Qed.

(** ** C4: the bounded iteration *)

Lemma passes_shift (n : nat) (h : heap) (entries : list ref) :
  passes n (remove_duplicates h entries) = passes (S n) (h, entries).
Proof.
  unfold passes. rewrite Nat.iter_succ_r. reflexivity.
Qed.

(** The loop with cap [n] runs some number [m] of passes, [1 <= m <= n]:
    every pass before the last changed the count, and if the cap was not
    reached the last one did not. *)
Lemma clean_loop_passes (n : nat) (h : heap) (entries : list ref) :
  1 <= n ->
  exists m,
    1 <= m <= n /\
    clean_loop n h entries = passes m (h, entries) /\
    (m < n -> length (passes m (h, entries)).2
              = length (passes (m - 1) (h, entries)).2) /\
    Forall (fun j => length (passes j (h, entries)).2
                     <> length (passes (j - 1) (h, entries)).2)
           (seq 1 (m - 1)).
Proof.
  revert h entries. induction n as [|n IH]; intros h entries Hn; [lia|].
  cbn [clean_loop].
  destruct (remove_duplicates h entries) as [h' cleaned'] eqn:E.
  destruct (Nat.eqb_spec (length cleaned') (length entries)) as [Heq|Hne].
  - exists 1. split_and!; try lia.
    + unfold passes. simpl. rewrite E. reflexivity.
    + intros _. unfold passes. simpl. rewrite E. exact Heq.
    + constructor.
  - destruct n as [|n].
    + exists 1. split_and!; try lia.
      * unfold passes. simpl. rewrite E. reflexivity.
      * constructor.
    + destruct (IH h' cleaned') as (m & Hm & Hrun & Hstop & Hchg); [lia|].
      assert (Hshift : forall j, passes j (h', cleaned')
                                 = passes (S j) (h, entries)).
      { intros j. rewrite <- E. apply passes_shift. }
      exists (S m). split_and!; try lia.
      * rewrite <- Hshift. exact Hrun.
      * intros Hlt. replace (S m - 1) with (S (m - 1)) by lia.
        rewrite <- !Hshift. apply Hstop. lia.
      * replace (S m - 1) with (S (m - 1)) by lia.
        change (seq 1 (S (m - 1))) with (1 :: seq 2 (m - 1)).
        constructor.
        -- unfold passes. simpl. rewrite E. exact Hne.
        -- rewrite <- seq_shift. apply Forall_map.
           eapply Forall_impl; [exact Hchg|]. cbv beta. intros j Hj.
           destruct j as [|j]; [exfalso; apply Hj; reflexivity|].
           replace (S j - 1) with j in Hj by lia.
           replace (S (S j) - 1) with (S j) by lia.
           rewrite !Hshift in Hj. exact Hj.
Qed.

(** C4. [perform_deep_cleaning] applies [remove_duplicates] [m] times with
    [1 <= m <= 5]: each application before the last changed the number of
    entries, and when fewer than 5 were made the last one left the number
    of entries unchanged (whatever it did to the lines).  The entries that
    are empty after these passes are then filtered out, and the rest is
    renumbered and returned. *)
Theorem deep_cleaning_iterations (h : heap) (entries : list ref) :
  exists m,
    1 <= m <= 5 /\
    let st := passes m (h, entries) in
    (m < 5 -> length st.2 = length (passes (m - 1) (h, entries)).2) /\
    Forall (fun j => length (passes j (h, entries)).2
                     <> length (passes (j - 1) (h, entries)).2)
           (seq 1 (m - 1)) /\
    perform_deep_cleaning h entries
    = (renumber st.1 1 (non_empty_entries st.1 st.2),
       non_empty_entries st.1 st.2).
Proof.
  destruct (clean_loop_passes 5 h entries) as (m & Hm & Hrun & Hstop & Hchg);
    [lia|].
  exists m. split; [exact Hm|]. cbv zeta. split_and!; auto.
  rewrite perform_deep_cleaning_eq, Hrun. reflexivity.
Qed.

(** The loop stops after one pass on [A B], [B B C]: the pass trims the
    second entry and drops nothing, and the second [B] is still there. *)
Example early_stop_after_trim :
  let h := (load Examples.ab_bbc).1 in
  clean_loop 5 h [0; 1] = passes 1 (h, [0; 1]) /\
  map text_lines (deref (clean_loop 5 h [0; 1]).1 (clean_loop 5 h [0; 1]).2)
  = [["A"; "B"]; ["B"; "C"]].
Proof. split; reflexivity. Qed.

(** ** C5: renumbering *)

Lemma set_number_other (h : heap) (r r' : ref) (n : Z) :
  r' <> r -> set_number h r n r' = h r'.
Proof. intros H. unfold set_number. apply upd_other, H. Qed.

Lemma renumber_other (l : list ref) (h : heap) (i : Z) (r : ref) :
  r ∉ l -> renumber h i l r = h r.
Proof.
  revert h i. induction l as [|x l IH]; intros h i Hr; simpl; [reflexivity|].
  rewrite not_elem_of_cons in Hr. destruct Hr as [Hx Hl].
  rewrite IH by assumption. apply set_number_other, Hx.
Qed.

Lemma renumber_numbers (l : list ref) (h : heap) (i : Z) :
  NoDup l ->
  map number (deref (renumber h i l) l)
  = map (fun j => (i + Z.of_nat j)%Z) (seq 0 (length l)).
Proof.
  revert h i. induction l as [|x l IH]; intros h i Hnd; [reflexivity|].
  apply NoDup_cons in Hnd as [Hx Hnd].
  cbn [renumber deref map length seq]. f_equal.
  - rewrite renumber_other by assumption. unfold set_number.
    rewrite upd_same. simpl. lia.
  - fold (deref (renumber (set_number h x i) (i + 1) l) l).
    rewrite IH by assumption. rewrite <- seq_shift, map_map.
    apply map_ext. intros j. lia.
Qed.

(** C5. For a list of distinct entries (a list of entries holds each entry
    object once), the sequence numbers of the [N] entries returned by
    [perform_deep_cleaning] are [1, 2, ..., N] in list order, whatever the
    numbers were before. *)
Theorem deep_cleaning_renumbers (h : heap) (entries : list ref) :
  NoDup entries ->
  let h' := (perform_deep_cleaning h entries).1 in
  let out := (perform_deep_cleaning h entries).2 in
  map number (deref h' out) = map Z.of_nat (seq 1 (length out)).
Proof.
  intros Hnd h' out. unfold h', out. rewrite perform_deep_cleaning_eq.
  cbn [fst snd]. rewrite renumber_numbers.
  - rewrite <- seq_shift, map_map. apply map_ext. intros j. lia.
  - eapply sublist_NoDup; [exact Hnd|].
    etrans; [apply non_empty_entries_sublist | apply clean_loop_inv].
Qed.

Lemma deep_cleaning_renumbers_witness :
  let st := perform_deep_cleaning (load Examples.mixed).1 [0; 1; 2; 3] in
  map number (deref st.1 st.2) = [1%Z; 2%Z].
Proof.
  intros st.
  assert (Hnd : NoDup [0; 1; 2; 3]).
  { apply NoDup_ListNoDup. repeat constructor; simpl; intuition lia. }
  exact (deep_cleaning_renumbers (load Examples.mixed).1 [0; 1; 2; 3] Hnd).
Defined.

(** ** C2: cleaning a cleaned list again *)

(** C2. The entries parsed from a file with the blocks [A B] and [B B C]
    are cleaned to [A B], [B C]: the first pass trims the second entry, the
    count is unchanged and the loop stops.  Cleaning that result again trims
    the second entry once more, so the first result was not stable. *)
Lemma deep_cleaning_twice :
  let st0 := load (parse_srt Examples.ab_bbc_srt) in
  let st1 := perform_deep_cleaning st0.1 st0.2 in
  let st2 := perform_deep_cleaning st1.1 st1.2 in
  deref st0.1 st0.2 = Examples.ab_bbc /\
  map text_lines (deref st1.1 st1.2) = [["A"; "B"]; ["B"; "C"]] /\
  map text_lines (deref st2.1 st2.2) = [["A"; "B"]; ["C"]] /\
  deref st2.1 st2.2 <> deref st1.1 st1.2.
Proof.
  split; [vm_compute; reflexivity|].
  split; [vm_compute; reflexivity|]. split; [vm_compute; reflexivity|].
  intros H. apply (f_equal (map text_lines)) in H. vm_compute in H.
  discriminate H.
Qed.

(** ** C7: the lines the parser stores *)

Lemma split_nl_no_nl (s : string) :
  Forall (fun l => Str.forallb Str.not_nl l = true) (Str.split_nl s).
Proof.
  induction s as [|c s IH]; simpl.
  - repeat constructor.
  - destruct (Ascii.eqb c Str.nl) eqn:E.
    + constructor; [reflexivity | exact IH].
    + destruct (Str.split_nl s) as [|x xs].
      * repeat constructor. simpl. unfold Str.not_nl. rewrite E. reflexivity.
      * inversion IH; subst. constructor; [|assumption].
        simpl. unfold Str.not_nl at 1. rewrite E. assumption.
Qed.

(** Counterexample for C7: a line of three spaces after a first text line is
    stored as a text line, although it has no character that is not white
    space. *)
Lemma parsed_blank_line_counterexample :
  map text_lines (parse_srt Examples.blank_inside) = [["foo"; "   "; "bar"]] /\
  Str.non_blank "   " = false.
Proof. vm_compute. split; reflexivity. Qed.

(** C7 (amended). For every matched block, the parser stores exactly the
    non-empty strings among the newline-separated pieces of the block's text
    portion, in their order: every stored line has at least one character
    and no newline, and lines of white space only are stored like any
    other. *)
Theorem parsed_text_lines (content : string) :
  Forall2 (fun e m => text_lines e
                      = List.filter Str.truthy (Str.split_nl (m 4)))
          (parse_srt content) (finditer block_pattern content) /\
  Forall (fun e => Forall (fun l => Str.truthy l = true /\
                                    Str.forallb Str.not_nl l = true)
                          (text_lines e))
         (parse_srt content).
Proof.
  unfold parse_srt. split.
  - induction (finditer block_pattern content) as [|m ms IH]; simpl;
      constructor; [reflexivity | exact IH].
  - apply Forall_map, Forall_forall. intros m _. simpl.
    apply Forall_forall. intros l Hl. apply list_elem_of_In in Hl.
    apply filter_In in Hl as [Hin Ht]. split; [exact Ht|].
    pose proof (split_nl_no_nl (m 4)) as H.
    rewrite Forall_forall in H. apply H, list_elem_of_In, Hin.
Qed.

(** ** Strings, continued *)

Lemma append_assoc (a b c : string) : ((a ++ b) ++ c = a ++ (b ++ c))%string.
Proof. induction a as [|x a IH]; simpl; [reflexivity | rewrite IH; reflexivity]. Qed.

Lemma append_nil_r (a : string) : (a ++ "")%string = a.
Proof. induction a as [|x a IH]; simpl; [reflexivity | rewrite IH; reflexivity]. Qed.

Lemma length_append (a b : string) :
  String.length (a ++ b) = String.length a + String.length b.
Proof. induction a as [|x a IH]; simpl; [reflexivity | rewrite IH; reflexivity]. Qed.

Lemma take_append (w rest : string) :
  Str.take (String.length (w ++ rest) - String.length rest) (w ++ rest) = w.
Proof.
  rewrite length_append.
  replace (String.length w + String.length rest - String.length rest)
    with (String.length w) by lia.
  induction w as [|x w IH]; simpl.
  - destruct rest; reflexivity.
  - rewrite IH. reflexivity.
Qed.


Lemma digit_not_nl (a : ascii) :
  Str.is_digit a = true -> Ascii.eqb a Str.nl = false.
Proof.
  destruct a as [[] [] [] [] [] [] [] []]; vm_compute; congruence.
Qed.


(** ** The matcher on the pieces of a block *)

Lemma rmatch_seq (r1 r2 : regex) (s : string) (c : caps) (k : cont) :
  rmatch (r1 >> r2) s c k = rmatch r1 s c (fun s' c' => rmatch r2 s' c' k).
Proof. reflexivity. Qed.


Lemma rmatch_rep (g : bool) (mn : nat) (r : regex) (s : string) (c : caps)
    (k : cont) :
  rmatch (Rep g mn r) s c k = rep (rmatch r) g (S (String.length s)) mn s c k.
Proof. reflexivity. Qed.

Lemma rmatch_cls (p : ascii -> bool) (a : ascii) (s : string) (c : caps)
    (k : cont) :
  rmatch (Cls p) (String a s) c k = if p a then k s c else None.
Proof. reflexivity. Qed.



Lemma rep_min_step (body : string -> caps -> cont -> option result)
    (g : bool) (fuel mn : nat) (s : string) (c : caps) (k : cont) :
  rep body g (S fuel) (S mn) s c k
  = body s c (fun s' c' => rep body g fuel mn s' c' k).
Proof. reflexivity. Qed.











Lemma lines_app_append (ls : list string) (rest : string) :
  lines_app ls rest = (lines_app ls "" ++ rest)%string.
Proof.
  induction ls as [|l ls IH]; simpl; [reflexivity|].
  rewrite IH, append_assoc. reflexivity.
Qed.









(** The pattern does not match where the text does not start with a
    digit. *)
Lemma match_at_not_digit (a : ascii) (s : string) :
  Str.is_digit a = false -> match_at block_pattern (String a s) = None.
Proof.
  intros H. unfold match_at, block_pattern.
  rewrite rmatch_seq. cbn [rmatch]. rewrite rep_min_step. unfold digit.
  rewrite rmatch_cls, H. reflexivity.
Qed.

(** ** What [str] writes for a number *)





(** ** Splitting the text of a block into its lines *)




(** ** [finditer] on the text written for well-formed entries *)


Lemma finditer_skip (fuel : nat) (a : ascii) (s : string) :
  Str.is_digit a = false ->
  finditer_fuel (S fuel) block_pattern (String a s)
  = finditer_fuel fuel block_pattern s.
Proof.
  intros H. cbn [finditer_fuel]. rewrite match_at_not_digit by assumption.
  reflexivity.
Qed.




(** ** [format_srt] writes the blocks one after the other *)

Lemma join_cons (sep x : string) (l : list string) :
  l <> [] -> Str.join sep (x :: l) = (x ++ sep ++ Str.join sep l)%string.
Proof. destruct l; [contradiction | reflexivity]. Qed.

Lemma join_lines (ls : list string) (r : list string) :
  Str.join (String Str.nl "") (ls ++ "" :: r)
  = lines_app ls (match r with
                  | [] => EmptyString
                  | _ :: _ => String Str.nl (Str.join (String Str.nl "") r)
                  end).
Proof.
  induction ls as [|l ls IH].
  - destruct r; reflexivity.
  - cbn [app lines_app]. rewrite join_cons by (destruct ls; discriminate).
    rewrite IH. reflexivity.
Qed.

Lemma format_srt_render (es : list SubtitleEntry) : format_srt es = render es.
Proof.
  unfold format_srt. induction es as [|e es IH]; [reflexivity|].
  cbn [flat_map render]. unfold entry_lines at 1. unfold block_text.
  rewrite <- !app_assoc. cbn [app].
  rewrite join_cons by discriminate.
  rewrite join_cons by (destruct (text_lines e); discriminate).
  rewrite join_lines. rewrite <- IH.
  rewrite !append_assoc. cbn [String.append].
  destruct es as [|e2 es]; reflexivity.
Qed.


(** ** Cleaning entries that have no duplicated line *)






Lemma renumber_deref (l : list ref) (h : heap) (i : Z) :
  NoDup l -> deref (renumber h i l) l = renumbered i (deref h l).
Proof.
  revert h i. induction l as [|x l IH]; intros h i Hnd; [reflexivity|].
  apply NoDup_cons in Hnd as [Hx Hnd].
  cbn [renumber deref map renumbered]. f_equal.
  - rewrite renumber_other by assumption. unfold set_number.
    apply upd_same.
  - fold (deref (renumber (set_number h x i) (i + 1) l) l).
    rewrite IH by assumption. f_equal. unfold deref.
    apply map_ext_in. intros r Hr. apply set_number_other.
    intros ->. apply Hx, list_elem_of_In, Hr.
Qed.







(** ** C8: writing, parsing and cleaning well-formed entries *)



(** ** The fuel of the matcher is enough *)

Lemma consuming_suffix_calls (m : string -> caps -> cont -> option result) :
  consuming m -> suffix_calls m.
Proof. intros H s c k1 k2 Hk. apply H. intros s' c' Hl. apply Hk. lia. Qed.

Lemma rep_suffix_calls (body : string -> caps -> cont -> option result)
    (g : bool) :
  suffix_calls body -> forall fuel mn, suffix_calls (rep body g fuel mn).
Proof.
  intros Hb fuel. induction fuel as [|f IH]; intros mn s c k1 k2 Hk.
  - destruct mn; simpl; [apply Hk; lia | reflexivity].
  - assert (E : forall mn',
              body s c (fun s' c' => rep body g f mn' s' c' k1)
              = body s c (fun s' c' => rep body g f mn' s' c' k2)).
    { intros mn'. apply Hb. intros s' c' Hl. apply IH.
      intros s2 c2 Hl2. apply Hk. lia. }
    cbn [rep]. destruct mn as [|mn']; [|apply E].
    rewrite E, (Hk s c) by lia. reflexivity.
Qed.

Lemma rmatch_suffix_calls (r : regex) : suffix_calls (rmatch r).
Proof.
  induction r as [a|p|r1 IH1 r2 IH2|r1 IH1 r2 IH2|r1 IH1|g mn r1 IH1| |n r1 IH1];
    intros s c k1 k2 Hk; cbn [rmatch].
  - destruct s as [|b s]; [reflexivity|].
    destruct (Ascii.eqb b a); [apply Hk; simpl; lia | reflexivity].
  - destruct s as [|b s]; [reflexivity|].
    destruct (p b); [apply Hk; simpl; lia | reflexivity].
  - apply IH1. intros s' c' Hl. apply IH2. intros s2 c2 Hl2. apply Hk. lia.
  - rewrite (IH1 s c k1 k2 Hk), (IH2 s c k1 k2 Hk). reflexivity.
  - rewrite (IH1 s c k1 k2 Hk), (Hk s c) by lia. reflexivity.
  - apply rep_suffix_calls; assumption.
  - destruct s as [|b s]; [apply Hk; lia|].
    destruct (Ascii.eqb b Str.nl); [apply Hk; lia | reflexivity].
  - apply IH1. intros s' c' Hl. apply Hk. exact Hl.
Qed.

Lemma consuming_cls (p : ascii -> bool) : consuming (rmatch (Cls p)).
Proof.
  intros s c k1 k2 Hk. destruct s as [|b s]; [reflexivity|]. simpl.
  destruct (p b); [apply Hk; simpl; lia | reflexivity].
Qed.

Lemma consuming_seq (r1 r2 : regex) :
  consuming (rmatch r1) -> consuming (rmatch (r1 >> r2)).
Proof.
  intros H s c k1 k2 Hk. rewrite !rmatch_seq. apply H.
  intros s' c' Hl. apply rmatch_suffix_calls.
  intros s2 c2 Hl2. apply Hk. lia.
Qed.

Lemma consuming_group (n : nat) (r : regex) :
  consuming (rmatch r) -> consuming (rmatch (Group n r)).
Proof.
  intros H s c k1 k2 Hk. cbn [rmatch]. apply H.
  intros s' c' Hl. apply Hk, Hl.
Qed.

(** When the body consumes input, a repetition gives the same result with
    any fuel above the length of the input. *)
Lemma rep_fuel (body : string -> caps -> cont -> option result) (g : bool)
    (k : cont) :
  consuming body ->
  forall f1 f2 mn s c,
    String.length s < f1 -> String.length s < f2 ->
    rep body g f1 mn s c k = rep body g f2 mn s c k.
Proof.
  intros Hb f1. induction f1 as [|f1 IH]; intros f2 mn s c H1 H2; [lia|].
  destruct f2 as [|f2]; [lia|].
  assert (E : forall mn',
            body s c (fun s' c' => rep body g f1 mn' s' c' k)
            = body s c (fun s' c' => rep body g f2 mn' s' c' k)).
  { intros mn'. apply Hb. intros s' c' Hl. apply IH; lia. }
  cbn [rep]. destruct mn as [|mn']; [|apply E].
  rewrite E. reflexivity.
Qed.

Lemma consuming_rep (g : bool) (mn : nat) (r : regex) :
  consuming (rmatch r) -> consuming (rmatch (Rep g (S mn) r)).
Proof.
  intros H s c k1 k2 Hk. rewrite !rmatch_rep, !rep_min_step. apply H.
  intros s' c' Hl. apply rep_suffix_calls; [apply rmatch_suffix_calls|].
  intros s2 c2 Hl2. apply Hk. lia.
Qed.

(** The bodies of the repetitions in the block pattern consume input. *)
Lemma line_body_consuming :
  consuming (rmatch (Rep true 1 (Cls Str.not_nl) >> Opt (Chr Str.nl))).
Proof. apply consuming_seq, consuming_rep, consuming_cls. Qed.

Lemma block_pattern_consuming : consuming (rmatch block_pattern).
Proof.
  unfold block_pattern.
  apply consuming_seq, consuming_group, consuming_rep, consuming_cls.
Qed.

(** A result of the matcher is a result of its continuation. *)
Lemma rep_from_cont (body : string -> caps -> cont -> option result)
    (g : bool) (k : cont) (x : result) :
  (forall s c k', body s c k' = Some x -> exists s' c', k' s' c' = Some x) ->
  forall fuel mn s c,
    rep body g fuel mn s c k = Some x -> exists s' c', k s' c' = Some x.
Proof.
  intros Hb fuel. induction fuel as [|f IH]; intros mn s c H.
  - destruct mn; simpl in H; [eauto | discriminate H].
  - cbn [rep] in H.
    assert (E : forall mn',
              body s c (fun s' c' => rep body g f mn' s' c' k) = Some x ->
              exists s' c', k s' c' = Some x).
    { intros mn' Hm. apply Hb in Hm as (s1 & c1 & Hm). eapply IH, Hm. }
    destruct mn as [|mn']; [|eapply E, H].
    destruct g.
    + destruct (body s c _) eqn:Em; [injection H as ->; eapply E, Em | eauto].
    + destruct (k s c) eqn:Ek; [injection H as ->; eauto | eapply E, H].
Qed.

Lemma rmatch_from_cont (r : regex) (x : result) :
  forall s c k, rmatch r s c k = Some x -> exists s' c', k s' c' = Some x.
Proof.
  induction r as [a|p|r1 IH1 r2 IH2|r1 IH1 r2 IH2|r1 IH1|g mn r1 IH1| |n r1 IH1];
    intros s c k H; cbn [rmatch] in H.
  - destruct s as [|b s]; [discriminate H|].
    destruct (Ascii.eqb b a); [eauto | discriminate H].
  - destruct s as [|b s]; [discriminate H|].
    destruct (p b); [eauto | discriminate H].
  - apply IH1 in H as (s1 & c1 & H). eapply IH2, H.
  - destruct (rmatch r1 s c k) eqn:E; [injection H as ->; eapply IH1, E|].
    eapply IH2, H.
  - destruct (rmatch r1 s c k) eqn:E; [injection H as ->; eapply IH1, E|].
    eauto.
  - eapply rep_from_cont; [|exact H]. exact IH1.
  - destruct s as [|b s]; [eauto|].
    destruct (Ascii.eqb b Str.nl); [eauto | discriminate H].
  - apply IH1 in H as (s1 & c1 & H). eauto.
Qed.

(** A match of the block pattern ends after its start. *)
Lemma match_at_shorter (s s' : string) (c : caps) :
  match_at block_pattern s = Some (c, s') ->
  String.length s' < String.length s.
Proof.
  unfold match_at. intros H.
  rewrite (block_pattern_consuming s no_caps _
             (fun s1 c1 => if String.length s1 <? String.length s
                           then Some (c1, s1) else None)) in H.
  - apply rmatch_from_cont in H as (s1 & c1 & H).
    destruct (Nat.ltb_spec (String.length s1) (String.length s));
      [|discriminate H].
    injection H as _ <-. assumption.
  - intros s1 c1 Hl. apply Nat.ltb_lt in Hl. rewrite Hl. reflexivity.
Qed.

(** [finditer] gives the same matches with any fuel above the length of
    the input. *)
Lemma finditer_fuel_enough (f1 : nat) :
  forall f2 s,
    String.length s < f1 -> String.length s < f2 ->
    finditer_fuel f1 block_pattern s = finditer_fuel f2 block_pattern s.
Proof.
  induction f1 as [|f1 IH]; intros f2 s H1 H2; [lia|].
  destruct f2 as [|f2]; [lia|]. cbn [finditer_fuel].
  destruct (match_at block_pattern s) as [[c s']|] eqn:E.
  - apply match_at_shorter in E. f_equal. apply IH; lia.
  - destruct s as [|a s]; [reflexivity|]. apply IH; simpl in *; lia.
Qed.

Lemma finditer_more_fuel (s : string) (extra : nat) :
  finditer_fuel (S (String.length s) + extra) block_pattern s
  = finditer block_pattern s.
Proof. unfold finditer. apply finditer_fuel_enough; lia. Qed.

Lemma rmatch_rep_more_fuel (g : bool) (mn : nat) (r : regex) (s : string)
    (c : caps) (k : cont) (extra : nat) :
  consuming (rmatch r) ->
  rep (rmatch r) g (S (String.length s) + extra) mn s c k
  = rmatch (Rep g mn r) s c k.
Proof. intros H. rewrite rmatch_rep. apply rep_fuel; [exact H | lia | lia]. Qed.

(** [is_timestamp] holds of the strings the timestamp pattern matches as a
    whole. *)
Lemma is_timestamp_pattern (ts : string) :
  is_timestamp ts = true <->
  exists c, match_at timestamp ts = Some (c, EmptyString).
Proof.
  split.
  - intros H. exists no_caps.
    do 12 (destruct ts as [|? ts]; [discriminate H|]).
    destruct ts; [|discriminate H].
    cbn -[Str.is_digit Ascii.eqb] in H.
    do 11 (apply andb_true_iff in H as [H ?]).
    repeat match goal with
           | E : Ascii.eqb _ _ = true |- _ => apply Ascii.eqb_eq in E; subst
           end.
    unfold match_at, timestamp, digit. cbn -[Str.is_digit].
    repeat match goal with
           | E : Str.is_digit _ = true |- _ => rewrite E; clear E
           end.
    reflexivity.
  - intros [c H]. unfold match_at, timestamp, digit in H.
    cbn -[Str.is_digit Ascii.eqb] in H.
    do 12 (destruct ts as [|? ts]; [discriminate H|];
           match type of H with
           | context [if ?b then _ else _] =>
               destruct b eqn:?; [|discriminate H]
           end).
    injection H as _ ->.
    cbn -[Str.is_digit Ascii.eqb].
    repeat match goal with
           | E : _ = true |- _ => rewrite E; clear E
           end.
    reflexivity.
Qed.

(** * Further properties of the cleaning functions *)

(** ** The two views of an entry *)

(** X1. [is_empty] and [get_cleaned_lines] agree: an entry is empty exactly
    when it has no cleaned line.  The cleaned lines are a subsequence of
    the raw lines, and they are the raw lines with a character that is not
    white space. *)
Theorem cleaned_lines_view (e : SubtitleEntry) :
  (is_empty e = true <-> get_cleaned_lines e = []) /\
  get_cleaned_lines e `sublist_of` text_lines e /\
  get_cleaned_lines e = List.filter Str.non_blank (text_lines e) /\
  is_empty e = (length (get_cleaned_lines e) =? 0).
Proof.
  assert (E : get_cleaned_lines e = List.filter Str.non_blank (text_lines e)).
  { unfold get_cleaned_lines. apply filter_ext. intros l. apply truthy_strip. }
  split_and!.
  - apply is_empty_cleaned.
  - rewrite E. clear E. induction (text_lines e) as [|l ls IH]; simpl;
      [reflexivity|].
    destruct (Str.non_blank l); [apply sublist_skip | apply sublist_cons];
      exact IH.
  - exact E.
  - destruct (is_empty e) eqn:Ee.
    + apply is_empty_cleaned in Ee. rewrite Ee. reflexivity.
    + destruct (get_cleaned_lines e) eqn:Ec; [|reflexivity].
      apply is_empty_cleaned in Ec. congruence.
Qed.

(** ** What a pass keeps *)

Lemma remove_duplicates_run (h : heap) (e0 : ref) (rest : list ref) :
  remove_duplicates h (e0 :: rest) = rd_run h (e0 :: rest) (length rest).
Proof.
  unfold remove_duplicates. f_equal. simpl. lia.
Qed.

(** X2. The first entry of a non-empty list is always the first entry of
    the result of a pass, and when the list holds it only once the pass
    leaves it as it was.  A pass over the empty list returns the empty list
    and the store. *)
Theorem first_entry_kept (h : heap) (e0 : ref) (rest : list ref) :
  head (remove_duplicates h (e0 :: rest)).2 = Some e0 /\
  (e0 ∉ rest -> (remove_duplicates h (e0 :: rest)).1 e0 = h e0) /\
  remove_duplicates h [] = (h, []).
Proof.
  rewrite remove_duplicates_run.
  pose proof (rd_run_inv h (e0 :: rest) (length rest)) as H.
  destruct (rd_run h (e0 :: rest) (length rest)) as [h' res].
  destruct H as (_ & Ho & _ & H1). cbn [fst snd].
  rewrite take_ge in Ho by (simpl; lia). cbn [drop] in Ho.
  split_and!; auto.
  destruct res as [|x res]; [discriminate H1|].
  simpl in H1. injection H1 as ->. reflexivity.
Qed.

(** After [k] iterations over distinct entries, every object has its
    original lines or has lost its first raw line. *)
Lemma rd_run_one_line (h : heap) (entries : list ref) (k : nat) :
  NoDup entries ->
  forall r, text_lines ((rd_run h entries k).1 r) = text_lines (h r) \/
            text_lines ((rd_run h entries k).1 r) = tail (text_lines (h r)).
Proof.
  intros Hnd. induction k as [|k IH]; intros r; [left; reflexivity|].
  destruct (le_lt_dec (length entries) (S k)) as [Hl|Hl].
  { rewrite rd_run_bound by assumption. apply IH. }
  rewrite rd_run_S. unfold rd_iter. replace (S k - 1) with k by lia.
  destruct (lookup_lt_is_Some_2 entries k) as [prev Hp]; [lia|].
  destruct (lookup_lt_is_Some_2 entries (S k)) as [cur Hc]; [lia|].
  rewrite Hp, Hc.
  pose proof (rd_run_inv h entries k) as Hinv.
  destruct (rd_run h entries k) as [hk res] eqn:Ek.
  destruct Hinv as (_ & Ho & _). cbn [fst] in IH.
  assert (Hcur : hk cur = h cur).
  { apply Ho. intros Hin.
    eapply NoDup_not_in_take; [exact Hnd | exact Hc |].
    eapply elem_of_sublist; [exact Hin | apply sublist_drop]. }
  destruct (rd_step prev cur (hk, res)) as [h' res'] eqn:E.
  apply rd_step_spec in E as (Hother & _ & _ & _ & Hcase). cbn [fst].
  destruct (Nat.eq_dec r cur) as [->|Hne].
  - destruct Hcase as [[-> _]|(_ & _ & _ & Ht & _)].
    + left. rewrite Hcur. reflexivity.
    + right. rewrite Ht, drop_first_tail, Hcur. reflexivity.
  - rewrite Hother by assumption. apply IH.
Qed.

Lemma remove_duplicates_one_line (h : heap) (entries : list ref) :
  NoDup entries ->
  forall r,
    text_lines ((remove_duplicates h entries).1 r) = text_lines (h r) \/
    text_lines ((remove_duplicates h entries).1 r) = tail (text_lines (h r)).
Proof.
  intros Hnd r. destruct entries as [|e0 rest]; [left; reflexivity|].
  rewrite remove_duplicates_run. apply rd_run_one_line, Hnd.
Qed.

(** X3. One pass over a list of distinct entries removes at most one line
    from an entry, its first raw line; no other object of the store is
    touched, and the numbers and times of all objects are kept. *)
Theorem pass_trims_one_line (h : heap) (entries : list ref) :
  NoDup entries ->
  let h' := (remove_duplicates h entries).1 in
  forall r,
    (text_lines (h' r) = text_lines (h r) \/
     text_lines (h' r) = tail (text_lines (h r))) /\
    start_time (h' r) = start_time (h r) /\
    end_time (h' r) = end_time (h r).
Proof.
  intros Hnd h' r. split; [apply remove_duplicates_one_line, Hnd|].
  destruct (remove_duplicates_inv h entries) as [Ht _].
  destruct (Ht r) as (a & b & _). auto.
Qed.

Lemma pass_trims_one_line_witness :
  let h := (load Examples.ab_bc).1 in
  text_lines ((remove_duplicates h [0; 1]).1 1) = ["C"].
Proof.
  intros h.
  assert (Hnd : NoDup [0; 1]).
  { apply NoDup_ListNoDup. repeat constructor; simpl; intuition lia. }
  destruct (pass_trims_one_line h [0; 1] Hnd 1) as [[H|H] _].
  - vm_compute in H. discriminate H.
  - exact H.
Defined.

(** ** How much cleaning removes *)

Lemma remove_duplicates_NoDup (h : heap) (entries : list ref) :
  NoDup entries -> NoDup (remove_duplicates h entries).2.
Proof.
  intros H. eapply sublist_NoDup; [exact H | apply remove_duplicates_inv].
Qed.

Lemma tail_drop {A} (l : list A) (j : nat) : tail (drop j l) = drop (S j) l.
Proof.
  revert j. induction l as [|x l IH]; intros j; [destruct j; reflexivity|].
  destruct j as [|j]; [reflexivity|]. simpl. apply IH.
Qed.

Lemma clean_loop_drops (n : nat) (h : heap) (entries : list ref) :
  NoDup entries ->
  forall r, exists j,
    j <= n /\
    text_lines ((clean_loop n h entries).1 r) = drop j (text_lines (h r)).
Proof.
  revert h entries. induction n as [|n IH]; intros h entries Hnd r.
  - exists 0. split; [lia | reflexivity].
  - cbn [clean_loop].
    pose proof (remove_duplicates_one_line h entries Hnd r) as H1.
    pose proof (remove_duplicates_NoDup h entries Hnd) as Hnd'.
    destruct (remove_duplicates h entries) as [h' cleaned']. cbn [fst snd] in *.
    assert (Hj : exists j, j <= 1 /\ text_lines (h' r) = drop j (text_lines (h r))).
    { destruct H1 as [H1|H1].
      - exists 0. split; [lia | exact H1].
      - exists 1. split; [lia|]. rewrite H1.
        destruct (text_lines (h r)); reflexivity. }
    destruct Hj as (j1 & Hj1 & E1).
    destruct (length cleaned' =? length entries).
    + exists j1. split; [lia | exact E1].
    + destruct (IH h' cleaned' Hnd' r) as (j & Hj & E).
      exists (j1 + j). split; [lia|]. rewrite E, E1, drop_drop. reflexivity.
Qed.

(** X4. [perform_deep_cleaning] on a list of distinct entries removes at
    most five lines from an entry, all of them from its start: the lines an
    object has afterwards are its lines without the first [j], [j <= 5]. *)
Theorem deep_cleaning_trims_at_most_five (h : heap) (entries : list ref) :
  NoDup entries ->
  let h' := (perform_deep_cleaning h entries).1 in
  forall r, exists j,
    j <= 5 /\ text_lines (h' r) = drop j (text_lines (h r)).
Proof.
  intros Hnd h' r. unfold h'. rewrite perform_deep_cleaning_eq. cbn [fst].
  destruct (renumber_fields
              (non_empty_entries (clean_loop 5 h entries).1
                 (clean_loop 5 h entries).2)
              (clean_loop 5 h entries).1 1 r) as (_ & _ & ->).
  apply clean_loop_drops, Hnd.
Qed.

Lemma deep_cleaning_trims_at_most_five_witness :
  let h := (load Examples.ab_bbc).1 in
  exists j, j <= 5 /\
    text_lines ((perform_deep_cleaning h [0; 1]).1 1)
    = drop j ["B"; "B"; "C"].
Proof.
  intros h.
  assert (Hnd : NoDup [0; 1]).
  { apply NoDup_ListNoDup. repeat constructor; simpl; intuition lia. }
  exact (deep_cleaning_trims_at_most_five h [0; 1] Hnd 1).
Defined.

(** ** Which entries cleaning drops *)

Lemma trimmed_is_empty (h h' : heap) (r : ref) :
  trimmed h h' -> is_empty (h r) = true -> is_empty (h' r) = true.
Proof.
  intros Ht He. destruct (Ht r) as (_ & _ & Hs).
  eapply is_empty_suffix; eassumption.
Qed.

(** Every entry met during the first [k] iterations is in [result] or is
    empty. *)
Lemma rd_run_dropped (h : heap) (entries : list ref) (k : nat) :
  forall r, r ∈ take (S k) entries ->
            r ∈ (rd_run h entries k).2 \/
            is_empty ((rd_run h entries k).1 r) = true.
Proof.
  induction k as [|k IH]; intros r Hr; [left; exact Hr|].
  destruct (le_lt_dec (length entries) (S k)) as [Hl|Hl].
  { rewrite rd_run_bound by assumption. apply IH.
    rewrite take_ge in Hr by lia. rewrite take_ge by lia. exact Hr. }
  rewrite rd_run_S. unfold rd_iter. replace (S k - 1) with k by lia.
  destruct (lookup_lt_is_Some_2 entries k) as [prev Hp]; [lia|].
  destruct (lookup_lt_is_Some_2 entries (S k)) as [cur Hc]; [lia|].
  rewrite Hp, Hc. rewrite (take_S_r entries (S k) cur Hc) in Hr.
  destruct (rd_run h entries k) as [hk res]. cbn [fst snd] in IH.
  pose proof (rd_step_trimmed prev cur hk res) as Ht.
  destruct (rd_step prev cur (hk, res)) as [h' res'] eqn:E.
  apply rd_step_spec in E as (_ & _ & _ & _ & Hcase). cbn [fst snd] in *.
  assert (Hres : forall x, x ∈ res -> x ∈ res').
  { intros x Hx.
    destruct Hcase as [[_ ->]|(_ & _ & _ & _ & [[_ ->]|[_ ->]])];
      rewrite ?elem_of_app; auto. }
  apply elem_of_app in Hr as [Hr|Hr].
  - destruct (IH r Hr) as [Hin|He]; [left; auto|].
    right. eapply trimmed_is_empty; eassumption.
  - apply list_elem_of_singleton in Hr. subst r.
    destruct Hcase as [[_ ->]|(_ & _ & _ & _ & [[He ->]|[_ ->]])].
    + left. rewrite elem_of_app, list_elem_of_singleton. auto.
    + right. exact He.
    + left. rewrite elem_of_app, list_elem_of_singleton. auto.
Qed.

Lemma remove_duplicates_dropped (h : heap) (entries : list ref) (r : ref) :
  r ∈ entries ->
  r ∈ (remove_duplicates h entries).2 \/
  is_empty ((remove_duplicates h entries).1 r) = true.
Proof.
  intros Hr. destruct entries as [|e0 rest]; [inversion Hr|].
  rewrite remove_duplicates_run. apply rd_run_dropped.
  rewrite take_ge by (simpl; lia). exact Hr.
Qed.

Lemma clean_loop_dropped (n : nat) (h : heap) (entries : list ref) (r : ref) :
  r ∈ entries ->
  r ∈ (clean_loop n h entries).2 \/
  is_empty ((clean_loop n h entries).1 r) = true.
Proof.
  revert h entries. induction n as [|n IH]; intros h entries Hr; [left; exact Hr|].
  cbn [clean_loop].
  pose proof (remove_duplicates_dropped h entries r Hr) as H1.
  destruct (remove_duplicates h entries) as [h' cleaned']. cbn [fst snd] in H1.
  destruct (length cleaned' =? length entries); [exact H1|].
  destruct H1 as [Hin|He]; [apply IH, Hin|].
  right. eapply trimmed_is_empty; [apply clean_loop_inv | exact He].
Qed.

(** X5. The entries [perform_deep_cleaning] returns are exactly the input
    entries that have a non-empty line when it ends: an entry is dropped
    only once it is empty, and no entry with a non-empty line left is
    lost. *)
Theorem deep_cleaning_output_members (h : heap) (entries : list ref) (r : ref) :
  let h' := (perform_deep_cleaning h entries).1 in
  let out := (perform_deep_cleaning h entries).2 in
  r ∈ out <-> r ∈ entries /\ is_empty (h' r) = false.
Proof.
  intros h' out. unfold h', out. rewrite perform_deep_cleaning_eq.
  cbn [fst snd]. rewrite renumber_is_empty.
  set (h1 := (clean_loop 5 h entries).1).
  set (cl := (clean_loop 5 h entries).2).
  assert (Hf : r ∈ non_empty_entries h1 cl <-> r ∈ cl /\ is_empty (h1 r) = false).
  { unfold non_empty_entries. rewrite !list_elem_of_In, filter_In, negb_true_iff.
    reflexivity. }
  rewrite Hf. split.
  - intros [Hin He]. split; [|exact He].
    eapply elem_of_sublist; [exact Hin | apply clean_loop_inv].
  - intros [Hin He]. split; [|exact He].
    destruct (clean_loop_dropped 5 h entries r Hin) as [H|H]; [exact H|].
    fold h1 in H. congruence.
Qed.

(** ** What cleaning leaves alone *)

Lemma rd_run_numbers (h : heap) (entries : list ref) (k : nat) (r : ref) :
  number ((rd_run h entries k).1 r) = number (h r).
Proof.
  induction k as [|k IH]; [reflexivity|].
  rewrite rd_run_S. unfold rd_iter.
  destruct (entries !! (S k - 1)) as [prev|]; [|exact IH].
  destruct (entries !! S k) as [cur|]; [|exact IH].
  destruct (rd_run h entries k) as [hk res]. cbn [fst] in IH.
  destruct (rd_step prev cur (hk, res)) as [h' res'] eqn:E.
  apply rd_step_spec in E as (Ho & Hn & _). cbn [fst].
  destruct (Nat.eq_dec r cur) as [->|Hne]; [congruence|].
  rewrite Ho by assumption. exact IH.
Qed.

Lemma remove_duplicates_frame (h : heap) (entries : list ref) (r : ref) :
  number ((remove_duplicates h entries).1 r) = number (h r) /\
  (r ∉ entries -> (remove_duplicates h entries).1 r = h r).
Proof.
  destruct entries as [|e0 rest]; [auto|].
  rewrite remove_duplicates_run. split; [apply rd_run_numbers|].
  intros Hr. pose proof (rd_run_inv h (e0 :: rest) (length rest)) as H.
  destruct (rd_run h (e0 :: rest) (length rest)) as [h' res].
  destruct H as (_ & Ho & _). apply Ho. intros Hin. apply Hr.
  eapply elem_of_sublist; [exact Hin|].
  etrans; [apply sublist_drop | apply sublist_take].
Qed.

Lemma clean_loop_frame (n : nat) (h : heap) (entries : list ref) (r : ref) :
  number ((clean_loop n h entries).1 r) = number (h r) /\
  (r ∉ entries -> (clean_loop n h entries).1 r = h r).
Proof.
  revert h entries. induction n as [|n IH]; intros h entries; [auto|].
  cbn [clean_loop].
  pose proof (remove_duplicates_frame h entries r) as [Hn Ho].
  pose proof (remove_duplicates_inv h entries) as [_ Hs].
  destruct (remove_duplicates h entries) as [h' cleaned']. cbn [fst snd] in *.
  destruct (length cleaned' =? length entries); [auto|].
  destruct (IH h' cleaned') as [Hn' Ho']. split; [congruence|].
  intros Hr. rewrite Ho', Ho; auto.
  intros Hin. apply Hr. eapply elem_of_sublist; eassumption.
Qed.

(** X6. [perform_deep_cleaning] changes the number of the entries it
    returns and of no other object: an entry it drops keeps its number, and
    an object that is not in the input list is not changed at all. *)
Theorem deep_cleaning_frame (h : heap) (entries : list ref) (r : ref) :
  let h' := (perform_deep_cleaning h entries).1 in
  let out := (perform_deep_cleaning h entries).2 in
  (r ∉ out -> number (h' r) = number (h r)) /\
  (r ∉ entries -> h' r = h r).
Proof.
  intros h' out. unfold h', out.
  pose proof (deep_cleaning_sublist h entries) as Hsub.
  rewrite perform_deep_cleaning_eq in *. cbn [fst snd] in *.
  destruct (clean_loop_frame 5 h entries r) as [Hn Ho].
  split.
  - intros Hr. rewrite renumber_other by assumption. exact Hn.
  - intros Hr. rewrite renumber_other; [apply Ho, Hr|].
    intros Hin. apply Hr. eapply elem_of_sublist; eassumption.
Qed.

(** ** Passes that change nothing *)

Lemma rd_run_step (h : heap) (entries : list ref) (i : nat)
    (prev current : ref) :
  1 <= i ->
  entries !! (i - 1) = Some prev ->
  entries !! i = Some current ->
  rd_run h entries i = rd_step prev current (rd_run h entries (i - 1)).
Proof.
  intros Hi Hp Hc. destruct i as [|i]; [lia|].
  rewrite rd_run_S. unfold rd_iter. rewrite Hp, Hc.
  replace (S i - 1) with i by lia. reflexivity.
Qed.

Lemma rd_step_no_match (prev current : ref) (h : heap) (result : list ref) :
  pair_matches (h prev) (h current) = false ->
  rd_step prev current (h, result) = (h, result ++ [current]).
Proof.
  unfold pair_matches, rd_step. intros H.
  destruct (is_empty (h prev) || is_empty (h current)); [reflexivity|].
  simpl in H. rewrite H. reflexivity.
Qed.

Lemma rd_step_match (prev current : ref) (h : heap) (result : list ref) :
  pair_matches (h prev) (h current) = true ->
  text_lines ((rd_step prev current (h, result)).1 current)
  = tail (text_lines (h current)) /\
  text_lines (h current) <> [].
Proof.
  unfold pair_matches, rd_step. intros H.
  apply andb_true_iff in H as [He Hm]. apply negb_true_iff in He.
  rewrite He, Hm. apply orb_false_iff in He as [_ Hc].
  set (hh := set_text_lines h current (drop_first (text_lines (h current)))).
  assert (E : text_lines (hh current) = tail (text_lines (h current))).
  { unfold hh, set_text_lines. rewrite upd_same, drop_first_tail.
    reflexivity. }
  split.
  - destruct (is_empty (hh current)); exact E.
  - intros Hnil. unfold is_empty in Hc. rewrite Hnil in Hc. discriminate Hc.
Qed.

Lemma no_adjacent_match_snoc (vs : list SubtitleEntry) (p c : SubtitleEntry) :
  no_adjacent_match ((vs ++ [p]) ++ [c])
  = no_adjacent_match (vs ++ [p]) && negb (pair_matches p c).
Proof.
  induction vs as [|v vs IH].
  - simpl. rewrite andb_true_r. reflexivity.
  - destruct vs as [|v2 vs].
    + simpl. rewrite !andb_true_r. reflexivity.
    + change (no_adjacent_match (((v :: v2 :: vs) ++ [p]) ++ [c]))
        with (negb (pair_matches v v2)
              && no_adjacent_match (((v2 :: vs) ++ [p]) ++ [c])).
      change (no_adjacent_match ((v :: v2 :: vs) ++ [p]))
        with (negb (pair_matches v v2)
              && no_adjacent_match ((v2 :: vs) ++ [p])).
      rewrite IH, andb_assoc. reflexivity.
Qed.

(** After [k] iterations: nothing has changed if no pair met so far
    matches, and otherwise some object has fewer lines than before. *)
Lemma rd_run_match_cases (h : heap) (entries : list ref) (k : nat) :
  S k <= length entries ->
  if no_adjacent_match (deref h (take (S k) entries))
  then rd_run h entries k = (h, take (S k) entries)
  else exists r, length (text_lines ((rd_run h entries k).1 r))
                 < length (text_lines (h r)).
Proof.
  induction k as [|k IH]; intros Hk.
  - destruct entries as [|e0 rest]; [simpl in Hk; lia|]. reflexivity.
  - destruct (lookup_lt_is_Some_2 entries k) as [prev Hp]; [lia|].
    destruct (lookup_lt_is_Some_2 entries (S k)) as [cur Hc]; [lia|].
    rewrite (take_S_r entries (S k) cur Hc).
    rewrite (take_S_r entries k prev Hp) in *.
    unfold deref in *. rewrite !map_app in *. cbn [map] in *.
    rewrite no_adjacent_match_snoc.
    rewrite (rd_run_step h entries (S k) prev cur) by
      (try lia; replace (S k - 1) with k by lia; assumption).
    replace (S k - 1) with k by lia.
    specialize (IH ltac:(lia)).
    destruct (no_adjacent_match (map h (take k entries) ++ [h prev])).
    + rewrite IH. cbn [andb].
      destruct (pair_matches (h prev) (h cur)) eqn:Em; cbn [negb].
      * exists cur.
        destruct (rd_step_match prev cur h (take k entries ++ [prev]) Em)
          as [-> Hne].
        destruct (text_lines (h cur)); [contradiction | simpl; lia].
      * rewrite rd_step_no_match by assumption. reflexivity.
    + cbn [andb]. destruct IH as [r Hr]. exists r.
      destruct (rd_run h entries k) as [hk res]. cbn [fst] in Hr.
      pose proof (rd_step_trimmed prev cur hk res) as Ht.
      destruct (Ht r) as (_ & _ & Hs). apply suffix_length in Hs. lia.
Qed.

(** X7. A pass returns the list and the store as they were exactly when no
    consecutive pair of entries matches, that is when for every entry and
    the one before it one of the two is empty or the first non-empty line
    of the entry differs from the last non-empty line of the one before. *)
Theorem pass_changes_nothing_iff (h : heap) (entries : list ref) :
  remove_duplicates h entries = (h, entries) <->
  no_adjacent_match (deref h entries) = true.
Proof.
  destruct entries as [|e0 rest]; [split; reflexivity|].
  rewrite remove_duplicates_run.
  pose proof (rd_run_match_cases h (e0 :: rest) (length rest)) as H.
  rewrite take_ge in H by (simpl; lia). specialize (H ltac:(simpl; lia)).
  destruct (no_adjacent_match (deref h (e0 :: rest))).
  - split; auto.
  - split; [|discriminate]. intros E. destruct H as [r Hr].
    rewrite E in Hr. cbn [fst] in Hr. lia.
Qed.

Lemma remove_duplicates_stable (h : heap) (entries : list ref) :
  no_adjacent_match (deref h entries) = true ->
  remove_duplicates h entries = (h, entries).
Proof.
  intros H. destruct entries as [|e0 rest]; [reflexivity|].
  rewrite remove_duplicates_run.
  pose proof (rd_run_match_cases h (e0 :: rest) (length rest)) as Hc.
  rewrite take_ge in Hc by (simpl; lia). specialize (Hc ltac:(simpl; lia)).
  rewrite H in Hc. exact Hc.
Qed.

Lemma no_adjacent_match_renumbered (vs : list SubtitleEntry) (i : Z) :
  no_adjacent_match (renumbered i vs) = no_adjacent_match vs.
Proof.
  revert i. induction vs as [|v [|v2 vs] IH]; intros i; try reflexivity.
  change (renumbered i (v :: v2 :: vs))
    with (mkEntry i (start_time v) (end_time v) (text_lines v)
            :: renumbered (i + 1) (v2 :: vs)).
  specialize (IH (i + 1)%Z). cbn [renumbered] in *.
  cbn [no_adjacent_match] in *. rewrite IH. reflexivity.
Qed.

Lemma is_empty_renumbered (vs : list SubtitleEntry) (i : Z) :
  forallb (fun e => negb (is_empty e)) (renumbered i vs)
  = forallb (fun e => negb (is_empty e)) vs.
Proof.
  revert i. induction vs as [|v vs IH]; intros i; [reflexivity|].
  cbn [renumbered forallb]. rewrite IH. reflexivity.
Qed.

Lemma renumbered_twice (vs : list SubtitleEntry) (i : Z) :
  renumbered i (renumbered i vs) = renumbered i vs.
Proof.
  revert i. induction vs as [|v vs IH]; intros i; [reflexivity|].
  cbn [renumbered]. rewrite IH. reflexivity.
Qed.

Lemma non_empty_entries_keep (h : heap) (entries : list ref) :
  forallb (fun e => negb (is_empty e)) (deref h entries) = true ->
  non_empty_entries h entries = entries.
Proof.
  unfold non_empty_entries. induction entries as [|r l IH]; intros H;
    [reflexivity|].
  simpl in H. apply andb_true_iff in H as [Hr H].
  simpl. rewrite Hr, IH by assumption. reflexivity.
Qed.

Lemma deep_cleaning_renumbers_only (h : heap) (entries : list ref) :
  NoDup entries ->
  no_adjacent_match (deref h entries) = true ->
  forallb (fun e => negb (is_empty e)) (deref h entries) = true ->
  (perform_deep_cleaning h entries).2 = entries /\
  deref (perform_deep_cleaning h entries).1 entries
  = renumbered 1 (deref h entries).
Proof.
  intros Hnd Hm He. rewrite perform_deep_cleaning_eq.
  assert (E : clean_loop 5 h entries = (h, entries)).
  { cbn [clean_loop]. rewrite remove_duplicates_stable by assumption.
    rewrite Nat.eqb_refl. reflexivity. }
  rewrite E. cbn [fst snd]. rewrite non_empty_entries_keep by assumption.
  split; [reflexivity | apply renumber_deref, Hnd].
Qed.

(** X8. On a list of distinct, non-empty entries in which no consecutive
    pair matches, [perform_deep_cleaning] returns the same list and only
    renumbers the entries from 1; applied to its own result it returns it
    unchanged. *)
Theorem deep_cleaning_stable (h : heap) (entries : list ref) :
  NoDup entries ->
  no_adjacent_match (deref h entries) = true ->
  forallb (fun e => negb (is_empty e)) (deref h entries) = true ->
  let st := perform_deep_cleaning h entries in
  let st2 := perform_deep_cleaning st.1 st.2 in
  st.2 = entries /\
  deref st.1 st.2 = renumbered 1 (deref h entries) /\
  st2.2 = st.2 /\
  deref st2.1 st2.2 = deref st.1 st.2.
Proof.
  intros Hnd Hm He st st2.
  destruct (deep_cleaning_renumbers_only h entries Hnd Hm He) as [E1 E2].
  fold st in E1, E2.
  assert (Hm' : no_adjacent_match (deref st.1 entries) = true).
  { rewrite E2, no_adjacent_match_renumbered. exact Hm. }
  assert (He' : forallb (fun e => negb (is_empty e)) (deref st.1 entries) = true).
  { rewrite E2, is_empty_renumbered. exact He. }
  destruct (deep_cleaning_renumbers_only st.1 entries Hnd Hm' He') as [E3 E4].
  unfold st2. rewrite E1.
  split; [reflexivity|]. split; [exact E2|]. split; [exact E3|].
  rewrite E3, E4, E2. apply renumbered_twice.
Qed.

Lemma deep_cleaning_stable_witness :
  let st := perform_deep_cleaning (load Examples.clean_pair).1 [0; 1] in
  deref st.1 st.2
  = [Examples.entry 1 ["Hello"; "  world"]; Examples.entry 2 ["Bye"]]
  /\ (perform_deep_cleaning st.1 st.2).2 = st.2.
Proof.
  intros st.
  assert (Hnd : NoDup [0; 1]).
  { apply NoDup_ListNoDup. repeat constructor; simpl; intuition lia. }
  destruct (deep_cleaning_stable (load Examples.clean_pair).1 [0; 1] Hnd
              eq_refl eq_refl) as (_ & H2 & H3 & _).
  split; [exact H2 | exact H3].
Defined.

(** ** A blank first line *)

(** X9. When iteration [i] finds a match and the first raw line of the
    current entry is blank, it is this blank line that is removed: the
    entry keeps all its non-empty lines, the matching one included, and is
    appended to [result]. *)
Theorem blank_first_line_trimmed (h : heap) (entries : list ref) (i : nat)
    (prev current : ref) (b : string) (rest : list string) :
  let hi := (rd_run h entries (i - 1)).1 in
  let res := (rd_run h entries (i - 1)).2 in
  let h' := (rd_run h entries i).1 in
  let res' := (rd_run h entries i).2 in
  1 <= i ->
  entries !! (i - 1) = Some prev ->
  entries !! i = Some current ->
  pair_matches (hi prev) (hi current) = true ->
  text_lines (hi current) = b :: rest ->
  Str.non_blank b = false ->
  text_lines (h' current) = rest /\
  get_cleaned_lines (h' current) = get_cleaned_lines (hi current) /\
  res' = res ++ [current].
Proof.
  intros hi res h' res' Hi Hp Hc Hm Hl Hb.
  assert (Hrun : rd_run h entries i = rd_step prev current (hi, res)).
  { rewrite (rd_run_step h entries i prev current) by assumption.
    unfold hi, res. destruct (rd_run h entries (i - 1)); reflexivity. }
  unfold h', res'. rewrite Hrun. clear Hrun.
  assert (Hclean : get_cleaned_lines (hi current)
                   = List.filter (fun l => Str.truthy (Str.strip l)) rest).
  { unfold get_cleaned_lines. rewrite Hl. simpl.
    rewrite truthy_strip, Hb. reflexivity. }
  unfold pair_matches in Hm. apply andb_true_iff in Hm as [He Hf].
  apply negb_true_iff in He. unfold rd_step. rewrite He, Hf.
  set (hh := set_text_lines hi current (drop_first (text_lines (hi current)))).
  assert (Hs : text_lines (hh current) = rest).
  { unfold hh, set_text_lines. rewrite upd_same, drop_first_tail, Hl.
    reflexivity. }
  assert (Hg : get_cleaned_lines (hh current) = get_cleaned_lines (hi current)).
  { rewrite Hclean. unfold get_cleaned_lines. rewrite Hs. reflexivity. }
  assert (Hne : is_empty (hh current) = false).
  { apply orb_false_iff in He as [_ Hcur].
    destruct (is_empty (hh current)) eqn:E; [|reflexivity].
    apply is_empty_cleaned in E. rewrite Hg in E.
    apply is_empty_cleaned in E. congruence. }
  rewrite Hne. cbn [fst snd]. auto.
Qed.

Lemma blank_first_line_trimmed_witness :
  let h := (load [Examples.entry 1 ["A"; "B"];
                  Examples.entry 2 ["  "; "B"; "C"]]).1 in
  text_lines ((rd_run h [0; 1] 1).1 1) = ["B"; "C"] /\
  (rd_run h [0; 1] 1).2 = [0; 1].
Proof.
  intros h.
  destruct (blank_first_line_trimmed h [0; 1] 1 0 1 "  " ["B"; "C"])
    as (H1 & _ & H3);
    [lia | reflexivity | reflexivity | reflexivity | reflexivity
     | reflexivity |].
  split; [exact H1 | exact H3].
Defined.

(** * Further properties of the parser and the serializer *)

(** ** Text without digits *)

Lemma finditer_skip_prefix (junk content : string) :
  Str.forallb (fun a => negb (Str.is_digit a)) junk = true ->
  finditer block_pattern (junk ++ content) = finditer block_pattern content.
Proof.
  induction junk as [|a junk IH]; intros H; [reflexivity|].
  simpl in H. apply andb_true_iff in H as [Ha H]. apply negb_true_iff in Ha.
  unfold finditer at 1. cbn [String.append String.length].
  rewrite finditer_skip by assumption.
  fold (finditer block_pattern (junk ++ content)). apply IH, H.
Qed.

Lemma finditer_skip_prefix_parse (junk content : string) :
  Str.forallb (fun a => negb (Str.is_digit a)) junk = true ->
  parse_srt (junk ++ content) = parse_srt content.
Proof.
  intros H. unfold parse_srt. rewrite finditer_skip_prefix by assumption.
  reflexivity.
Qed.

(** X10. The parser skips text in which no digit occurs: such text before
    the content does not change the entries parsed, and a content without
    any digit, the empty one included, gives no entry. *)
Theorem digit_free_text_skipped (junk content : string) :
  Str.forallb (fun a => negb (Str.is_digit a)) junk = true ->
  parse_srt (junk ++ content) = parse_srt content /\
  parse_srt junk = [].
Proof.
  intros H. unfold parse_srt. split.
  - rewrite finditer_skip_prefix by assumption. reflexivity.
  - rewrite <- (append_nil_r junk), finditer_skip_prefix by assumption.
    reflexivity.
Qed.

Lemma digit_free_text_skipped_witness :
  parse_srt ("WEBVTT header" ++ Examples.ab_bbc_srt)
  = parse_srt Examples.ab_bbc_srt.
Proof.
  exact (proj1 (digit_free_text_skipped "WEBVTT header" Examples.ab_bbc_srt
                  eq_refl)).
Defined.

(** ** Numbers written and read back *)







(** ** The text of a list of entries *)

Lemma block_text_rest (num : string) (e : SubtitleEntry) (rest : string) :
  block_text num e rest = (block_text num e "" ++ rest)%string.
Proof.
  unfold block_text. rewrite (lines_app_append (text_lines e) rest).
  rewrite !append_assoc. cbn [String.append]. rewrite !append_assoc.
  cbn [String.append]. rewrite !append_assoc. reflexivity.
Qed.

Lemma render_app (es1 es2 : list SubtitleEntry) :
  es1 <> [] -> es2 <> [] ->
  render (es1 ++ es2)
  = (render es1 ++ String Str.nl (render es2))%string.
Proof.
  intros H1 H2. induction es1 as [|e es1 IH]; [contradiction|].
  destruct es1 as [|e2 es1].
  - cbn [app render]. destruct es2 as [|e3 es2]; [contradiction|].
    rewrite block_text_rest. reflexivity.
  - change (render ((e :: e2 :: es1) ++ es2))
      with (block_text (Str.of_Z (number e)) e
              (String Str.nl (render ((e2 :: es1) ++ es2)))).
    rewrite IH by discriminate.
    change (render (e :: e2 :: es1))
      with (block_text (Str.of_Z (number e)) e
              (String Str.nl (render (e2 :: es1)))).
    rewrite (block_text_rest _ e (String _ (render (e2 :: es1)))).
    rewrite block_text_rest, append_assoc. reflexivity.
Qed.

(** X12. [format_srt] writes the entries one after the other: the text of
    two non-empty lists put together is the text of the first, a newline
    (the blank line between blocks), and the text of the second.  The text
    of one entry is its number, its timing line and its text lines, each
    followed by a newline, and the text of no entry is empty. *)
Theorem format_srt_blocks (es1 es2 : list SubtitleEntry) (e : SubtitleEntry) :
  (es1 <> [] -> es2 <> [] ->
   format_srt (es1 ++ es2)
   = (format_srt es1 ++ String Str.nl (format_srt es2))%string) /\
  format_srt [e]
  = (Str.of_Z (number e) ++ String Str.nl
       (start_time e ++ " --> " ++ end_time e ++ String Str.nl
          (lines_app (text_lines e) "")))%string /\
  format_srt [] = EmptyString.
Proof.
  split_and!.
  - intros H1 H2. rewrite !format_srt_render. apply render_app; assumption.
  - rewrite format_srt_render. reflexivity.
  - reflexivity.
Qed.

(** ** What the parser's matches look like *)

Lemma rep_sound (body : string -> caps -> cont -> option result)
    (m : string -> caps -> string -> caps -> Prop) (g : bool) (k : cont)
    (x : result) :
  (forall s c k', body s c k' = Some x ->
                  exists s' c', m s c s' c' /\ k' s' c' = Some x) ->
  forall fuel mn s c,
    rep body g fuel mn s c k = Some x ->
    exists n s' c', mn <= n /\ iterated m n s c s' c' /\ k s' c' = Some x.
Proof.
  intros Hb fuel. induction fuel as [|f IH]; intros mn s c H.
  - destruct mn; simpl in H; [|discriminate H].
    exists 0, s, c. simpl. auto.
  - cbn [rep] in H.
    assert (E : forall mn',
              body s c (fun s' c' => rep body g f mn' s' c' k) = Some x ->
              exists n s' c', S mn' <= n /\ iterated m n s c s' c'
                              /\ k s' c' = Some x).
    { intros mn' Hm. apply Hb in Hm as (s1 & c1 & Hm1 & Hm).
      apply IH in Hm as (n & s' & c' & Hn & Hi & Hk).
      exists (S n), s', c'. split; [lia|]. split; [|exact Hk].
      exists s1, c1. auto. }
    assert (E0 : k s c = Some x ->
                 exists n s' c', 0 <= n /\ iterated m n s c s' c'
                                 /\ k s' c' = Some x).
    { intros Hk. exists 0, s, c. simpl. auto. }
    assert (E1 : body s c (fun s' c' => rep body g f 0 s' c' k) = Some x ->
                 exists n s' c', 0 <= n /\ iterated m n s c s' c'
                                 /\ k s' c' = Some x).
    { intros Hm. apply E in Hm as (n & s' & c' & Hn & Hrest).
      exists n, s', c'. split; [lia | exact Hrest]. }
    destruct mn as [|mn']; [|apply E, H].
    destruct g.
    + destruct (body s c _) eqn:Em;
        [injection H as ->; apply E1; reflexivity | auto].
    + destruct (k s c) eqn:Ek;
        [injection H as ->; apply E0; reflexivity | apply E1, H].
Qed.

(** The matcher finds matches only: its result is the result of its
    continuation after a match of the pattern. *)
Lemma rmatch_sound (r : regex) (x : result) :
  forall s c k,
    rmatch r s c k = Some x ->
    exists s' c', matches r s c s' c' /\ k s' c' = Some x.
Proof.
  induction r as [a|p|r1 IH1 r2 IH2|r1 IH1 r2 IH2|r1 IH1|g mn r1 IH1| |n r1 IH1];
    intros s c k H; cbn [rmatch] in H; cbn [matches].
  - destruct s as [|b s]; [discriminate H|].
    destruct (Ascii.eqb_spec b a) as [->|]; [|discriminate H].
    exists s, c. auto.
  - destruct s as [|b s]; [discriminate H|].
    destruct (p b) eqn:Ep; [|discriminate H].
    exists s, c. split; [exists b; auto | exact H].
  - apply IH1 in H as (s1 & c1 & H1 & H). apply IH2 in H as (s2 & c2 & H2 & H).
    exists s2, c2. split; [exists s1, c1; auto | exact H].
  - destruct (rmatch r1 s c k) eqn:E.
    + injection H as ->. apply IH1 in E as (s1 & c1 & H1 & H).
      exists s1, c1. split; [left; exact H1 | exact H].
    + apply IH2 in H as (s1 & c1 & H1 & H).
      exists s1, c1. split; [right; exact H1 | exact H].
  - destruct (rmatch r1 s c k) eqn:E.
    + injection H as ->. apply IH1 in E as (s1 & c1 & H1 & H).
      exists s1, c1. split; [left; exact H1 | exact H].
    + exists s, c. split; [right; split; reflexivity | exact H].
  - apply (rep_sound _ (matches r1)) in H; [|exact IH1].
    destruct H as (n & s' & c' & Hn & Hi & Hk). exists s', c'.
    split; [exists n; split; assumption | exact Hk].
  - exists s, c. destruct s as [|b s]; [auto|].
    destruct (Ascii.eqb b Str.nl) eqn:E; [|discriminate H].
    split; [|exact H]. split_and!; auto. simpl. unfold Str.not_nl.
    rewrite E. reflexivity.
  - apply IH1 in H as (s1 & c1 & H1 & H).
    exists s1, (set_cap n (Str.take (String.length s - String.length s1) s) c1).
    split; [exists c1; split; [exact H1 | reflexivity] | exact H].
Qed.

Lemma match_at_sound (r : regex) (s s' : string) (c : caps) :
  match_at r s = Some (c, s') -> matches r s no_caps s' c.
Proof.
  unfold match_at. intros H. apply rmatch_sound in H as (s1 & c1 & Hm & H).
  injection H as -> ->. exact Hm.
Qed.

Lemma finditer_fuel_sound (r : regex) (fuel : nat) :
  forall s m, In m (finditer_fuel fuel r s) ->
              exists s0 s', match_at r s0 = Some (m, s').
Proof.
  induction fuel as [|f IH]; intros s m H; [contradiction|].
  cbn [finditer_fuel] in H.
  destruct (match_at r s) as [[c s']|] eqn:E.
  - destruct H as [<-|H]; [eauto | eapply IH, H].
  - destruct s as [|a s]; [contradiction | eapply IH, H].
Qed.

(** A match leaves a suffix of the input, and captures change in groups
    only. *)
Lemma iterated_length (m : string -> caps -> string -> caps -> Prop) :
  (forall s c s' c', m s c s' c' -> String.length s' <= String.length s) ->
  forall n s c s' c',
    iterated m n s c s' c' -> String.length s' <= String.length s.
Proof.
  intros Hm n. induction n as [|n IH]; intros s c s' c' H; simpl in H.
  - destruct H as [-> _]. lia.
  - destruct H as (s1 & c1 & H1 & H). apply Hm in H1. apply IH in H. lia.
Qed.

Lemma matches_length (r : regex) :
  forall s c s' c',
    matches r s c s' c' -> String.length s' <= String.length s.
Proof.
  induction r as [a|p|r1 IH1 r2 IH2|r1 IH1 r2 IH2|r1 IH1|g mn r1 IH1| |n r1 IH1];
    intros s c s' c' H; cbn [matches] in H.
  - destruct H as [-> _]. simpl. lia.
  - destruct H as (b & -> & _). simpl. lia.
  - destruct H as (s1 & c1 & H1 & H2). apply IH1 in H1. apply IH2 in H2. lia.
  - destruct H as [H|H]; [apply IH1 in H | apply IH2 in H]; lia.
  - destruct H as [H|[-> _]]; [apply IH1 in H|]; lia.
  - destruct H as (n & _ & H). eapply iterated_length; eassumption.
  - destruct H as (-> & _). lia.
  - destruct H as (c1 & H & _). apply IH1 in H. lia.
Qed.

Lemma iterated_caps (m : string -> caps -> string -> caps -> Prop) :
  (forall s c s' c', m s c s' c' -> c' = c) ->
  forall n s c s' c', iterated m n s c s' c' -> c' = c.
Proof.
  intros Hm n. induction n as [|n IH]; intros s c s' c' H; simpl in H.
  - tauto.
  - destruct H as (s1 & c1 & H1 & H). apply Hm in H1. apply IH in H.
    congruence.
Qed.

Lemma matches_caps (r : regex) :
  group_free r = true ->
  forall s c s' c', matches r s c s' c' -> c' = c.
Proof.
  induction r as [a|p|r1 IH1 r2 IH2|r1 IH1 r2 IH2|r1 IH1|g mn r1 IH1| |n r1 IH1];
    intros Hg s c s' c' H; cbn [matches] in H; cbn [group_free] in Hg;
    try (apply andb_true_iff in Hg as [Hg1 Hg2]).
  - tauto.
  - destruct H as (b & _ & _ & H). exact H.
  - destruct H as (s1 & c1 & H1 & H2).
    apply (IH1 Hg1) in H1. apply (IH2 Hg2) in H2. congruence.
  - destruct H as [H|H]; [apply (IH1 Hg1) in H | apply (IH2 Hg2) in H]; auto.
  - destruct H as [H|[_ H]]; [apply (IH1 Hg) in H|]; auto.
  - destruct H as (n & _ & H). eapply iterated_caps; [|exact H].
    apply IH1, Hg.
  - tauto.
  - discriminate Hg.
Qed.

(** A run of class characters. *)
Lemma iterated_class (p : ascii -> bool) (n : nat) :
  forall s c s' c',
    iterated (matches (Cls p)) n s c s' c' ->
    exists w, s = (w ++ s')%string /\ Str.forallb p w = true /\
              String.length w = n.
Proof.
  induction n as [|n IH]; intros s c s' c' H; simpl in H.
  - destruct H as [-> _]. exists EmptyString. auto.
  - destruct H as (s1 & c1 & (b & -> & Hb & _) & H).
    apply IH in H as (w & -> & Hw & Hl).
    exists (String b w). simpl. rewrite Hb, Hw, Hl. auto.
Qed.

Lemma matches_timestamp (s : string) (c : caps) (s' : string) (c' : caps) :
  matches timestamp s c s' c' ->
  exists ts, s = (ts ++ s')%string /\ is_timestamp ts = true.
Proof.
  unfold timestamp, digit. cbn [matches]. intros H.
  repeat match goal with
         | H : exists _, _ |- _ => destruct H
         | H : _ /\ _ |- _ => destruct H
         end.
  subst.
  match goal with
  | |- exists ts, String ?a1 (String ?a2 (String ?a3 (String ?a4 (String ?a5
         (String ?a6 (String ?a7 (String ?a8 (String ?a9 (String ?a10
            (String ?a11 (String ?a12 ?r))))))))))) = _ /\ _ =>
      exists (String a1 (String a2 (String a3 (String a4 (String a5
         (String a6 (String a7 (String a8 (String a9 (String a10
            (String a11 (String a12 EmptyString))))))))))))
  end.
  split; [reflexivity|]. cbn -[Str.is_digit].
  repeat match goal with
         | E : Str.is_digit _ = true |- _ => rewrite E; clear E
         end.
  reflexivity.
Qed.

Lemma take_cons (k : nat) (b : ascii) (t : string) :
  Str.take (S k) (String b t) = String b (Str.take k t).
Proof. reflexivity. Qed.

Lemma split_nl_head (b : ascii) (t : string) :
  Str.not_nl b = true ->
  List.filter Str.truthy (Str.split_nl (String b t)) <> [].
Proof.
  intros Hb. unfold Str.not_nl in Hb. apply negb_true_iff in Hb.
  cbn [Str.split_nl]. rewrite Hb. destruct (Str.split_nl t); discriminate.
Qed.

Lemma int_digits_nonneg (s : string) (acc : Z) :
  Str.forallb Str.is_digit s = true -> (0 <= acc)%Z ->
  (0 <= Str.int_digits acc s)%Z.
Proof.
  revert acc. induction s as [|a s IH]; intros acc Hs Hacc; [exact Hacc|].
  simpl in Hs. apply andb_true_iff in Hs as [Ha Hs]. simpl. apply IH; auto.
  unfold Str.is_digit in Ha. apply andb_true_iff in Ha as [Ha _].
  apply N.leb_le in Ha. unfold Str.digit_val. lia.
Qed.

(** The captures of a match of the block pattern. *)
Lemma block_match_shape (s s' : string) (c : caps) :
  matches block_pattern s no_caps s' c ->
  Str.forallb Str.is_digit (c 1) = true /\
  is_timestamp (c 2) = true /\
  is_timestamp (c 3) = true /\
  exists b t, c 4 = String b t /\ Str.not_nl b = true.
Proof.
  unfold block_pattern. cbn [matches]. intros H.
  destruct H as (s1 & c1 & (c1' & (n1 & _ & H1) & ->) & H).
  apply iterated_class in H1 as (ds & -> & Hds & _).
  rewrite take_append in H.
  destruct H as (s2 & c2 & Hsp1 & H).
  apply (matches_caps spaces eq_refl) in Hsp1. subst c2.
  destruct H as (s3 & c3 & [-> ->] & H).
  destruct H as (s4 & c4 & (c4' & Ht2 & ->) & H).
  pose proof (matches_caps timestamp eq_refl _ _ _ _ Ht2) as ->.
  apply matches_timestamp in Ht2 as (ts2 & -> & Hts2).
  rewrite take_append in H.
  destruct H as (s5 & c5 & Hsp2 & H).
  apply (matches_caps spaces eq_refl) in Hsp2. subst c5.
  destruct H as (s6 & c6 & [-> ->] & H).
  destruct H as (s7 & c7 & [-> ->] & H).
  destruct H as (s8 & c8 & [-> ->] & H).
  destruct H as (s9 & c9 & Hsp3 & H).
  apply (matches_caps spaces eq_refl) in Hsp3. subst c9.
  destruct H as (s10 & c10 & (c10' & Ht3 & ->) & H).
  pose proof (matches_caps timestamp eq_refl _ _ _ _ Ht3) as ->.
  apply matches_timestamp in Ht3 as (ts3 & -> & Hts3).
  rewrite take_append in H.
  destruct H as (s11 & c11 & Hsp4 & H).
  apply (matches_caps spaces eq_refl) in Hsp4. subst c11.
  destruct H as (s12 & c12 & [-> ->] & H).
  destruct H as (s13 & c13 & (c13' & Htb & ->) & Hend).
  apply (matches_caps block_end eq_refl) in Hend. subst c.
  pose proof (matches_caps text_block_re eq_refl _ _ _ _ Htb) as ->.
  unfold set_cap. cbn [Nat.eqb]. split_and!; auto.
  pose proof (matches_length _ _ _ _ _ Htb) as Hlen.
  unfold text_block_re in Htb. cbn [matches] in Htb.
  destruct Htb as (n & Hn & Hit).
  destruct n as [|n]; [lia|]. cbn [iterated] in Hit.
  destruct Hit as (sa & ca & (sb & cb & (m & Hm & Hline) & Hopt) & Hrest).
  apply iterated_class in Hline as (w & -> & Hw & Hwl).
  destruct w as [|b w]; [simpl in Hwl; lia|].
  simpl in Hw. apply andb_true_iff in Hw as [Hb _].
  assert (Hsa : String.length sa <= String.length sb).
  { destruct Hopt as [[-> _]|[-> _]]; simpl; lia. }
  pose proof (iterated_length _
                (matches_length (Rep true 1 (Cls Str.not_nl) >> Opt (Chr Str.nl)))
                _ _ _ _ _ Hrest) as Hs13.
  cbn [String.append String.length] in *. rewrite length_append in *.
  replace (S (String.length w + String.length sb) - String.length s13)
    with (S (String.length w + String.length sb - String.length s13)) by lia.
  rewrite take_cons. eauto.
Qed.

(** X13. Every entry the parser returns, whatever the content, has a
    non-negative number, a start time and an end time of the shape
    [\d{2}:\d{2}:\d{2},\d{3}], and at least one text line. *)
Theorem parsed_entries_shape (content : string) :
  Forall (fun e => (0 <= number e)%Z /\
                   is_timestamp (start_time e) = true /\
                   is_timestamp (end_time e) = true /\
                   text_lines e <> [])
         (parse_srt content).
Proof.
  unfold parse_srt, finditer. apply Forall_map, Forall_forall.
  intros m Hm. apply list_elem_of_In, finditer_fuel_sound in Hm.
  destruct Hm as (s0 & s' & Hm). apply match_at_sound, block_match_shape in Hm.
  destruct Hm as (H1 & H2 & H3 & b & t & H4 & Hb).
  unfold entry_of_match. cbn [number start_time end_time text_lines].
  split_and!; auto.
  - apply int_digits_nonneg; [exact H1 | lia].
  - rewrite H4. apply split_nl_head, Hb.
Qed.

(** * Further properties of the whole program *)

(** ** Two entries, the second starting with the last line of the first *)

Lemma is_empty_lines (n : Z) (s t : string) (ls : list string) :
  is_empty (mkEntry n s t ls) = negb (existsb Str.non_blank ls).
Proof.
  unfold is_empty. cbn [text_lines]. f_equal.
  induction ls as [|l ls IH]; simpl; [reflexivity|].
  rewrite truthy_strip, IH. reflexivity.
Qed.

(** X14. Let the second of two distinct entries start with a non-blank raw
    line that is the last non-empty line of the first, itself not empty.
    [perform_deep_cleaning] removes that line from the second entry, leaves
    the lines of the first alone and numbers it 1; the second entry is
    dropped when it has no non-blank line left, and otherwise kept and
    numbered 2. *)
Theorem two_entries_duplicate (h : heap) (p c : ref) (l : string)
    (rest : list string) :
  p <> c ->
  is_empty (h p) = false ->
  text_lines (h c) = l :: rest ->
  Str.non_blank l = true ->
  last (get_cleaned_lines (h p)) = Some l ->
  let st := perform_deep_cleaning h [p; c] in
  text_lines (st.1 p) = text_lines (h p) /\
  number (st.1 p) = 1%Z /\
  text_lines (st.1 c) = rest /\
  (if existsb Str.non_blank rest
   then st.2 = [p; c] /\ number (st.1 c) = 2%Z
   else st.2 = [p]).
Proof.
  intros Hpc Hp Hc Hl Hlast st.
  assert (Hcne : is_empty (h c) = false).
  { destruct (h c) as [n s t ls]. cbn [text_lines] in Hc. subst ls.
    rewrite is_empty_lines. simpl. rewrite Hl. reflexivity. }
  assert (Hm : first_matches_last (get_cleaned_lines (h c))
                                  (get_cleaned_lines (h p)) = true).
  { unfold first_matches_last. rewrite Hlast. unfold get_cleaned_lines.
    rewrite Hc. cbn [List.filter]. rewrite truthy_strip, Hl. simpl.
    apply String.eqb_refl. }
  set (h1 := set_text_lines h c (drop_first (text_lines (h c)))).
  assert (H1c : h1 c = mkEntry (number (h c)) (start_time (h c))
                         (end_time (h c)) rest).
  { unfold h1, set_text_lines. rewrite upd_same, drop_first_tail, Hc.
    reflexivity. }
  assert (H1p : h1 p = h p).
  { unfold h1, set_text_lines. apply upd_other, Hpc. }
  assert (E1 : remove_duplicates h [p; c]
               = if is_empty (h1 c) then (h1, [p]) else (h1, [p; c])).
  { unfold remove_duplicates, rd_run. cbn [length Nat.sub seq fold_left].
    unfold rd_iter. cbn [Nat.sub lookup list_lookup take]. unfold rd_step.
    rewrite Hp, Hcne, Hm. cbn [orb]. fold h1.
    destruct (is_empty (h1 c)); reflexivity. }
  assert (E2 : remove_duplicates h1 [p] = (h1, [p])) by reflexivity.
  assert (Hemp : is_empty (h1 c) = negb (existsb Str.non_blank rest)).
  { rewrite H1c. apply is_empty_lines. }
  unfold st. rewrite perform_deep_cleaning_eq.
  assert (Eloop : clean_loop 5 h [p; c]
                  = if is_empty (h1 c) then (h1, [p]) else (h1, [p; c])).
  { cbn [clean_loop]. rewrite E1.
    destruct (is_empty (h1 c)); cbn [length Nat.eqb]; [|reflexivity].
    rewrite E2. reflexivity. }
  rewrite Eloop. clear Eloop E1 E2.
  destruct (existsb Str.non_blank rest); cbn [negb] in Hemp; rewrite Hemp;
    cbn [fst snd].
  - assert (Hf : non_empty_entries h1 [p; c] = [p; c]).
    { unfold non_empty_entries. cbn [List.filter].
      rewrite H1p, Hp, Hemp. reflexivity. }
    rewrite Hf.
    assert (Hnd : NoDup [p; c]).
    { apply NoDup_cons. split; [|apply NoDup_singleton].
      rewrite list_elem_of_singleton. exact Hpc. }
    pose proof (renumber_numbers [p; c] h1 1 Hnd) as Hn.
    cbn [deref map length seq] in Hn. injection Hn as Hnp Hnc.
    destruct (renumber_fields [p; c] h1 1 p) as (_ & _ & Htp).
    destruct (renumber_fields [p; c] h1 1 c) as (_ & _ & Htc).
    cbn [renumber] in *. rewrite Htp, Htc, H1p, H1c, Hnp, Hnc.
    cbn [text_lines].
    split_and!; reflexivity.
  - assert (Hf : non_empty_entries h1 [p] = [p]).
    { unfold non_empty_entries. cbn [List.filter]. rewrite H1p, Hp.
      reflexivity. }
    rewrite Hf.
    pose proof (renumber_numbers [p] h1 1 (NoDup_singleton p)) as Hn.
    cbn [deref map length seq] in Hn. injection Hn as Hnp.
    destruct (renumber_fields [p] h1 1 p) as (_ & _ & Htp).
    destruct (renumber_fields [p] h1 1 c) as (_ & _ & Htc).
    cbn [renumber] in *. rewrite Htp, Htc, H1p, H1c, Hnp.
    cbn [text_lines].
    split_and!; reflexivity.
Qed.

Lemma two_entries_duplicate_witness :
  let st := perform_deep_cleaning (load Examples.ab_bc).1 [0; 1] in
  text_lines (st.1 1) = ["C"] /\ st.2 = [0; 1].
Proof.
  intros st.
  destruct (two_entries_duplicate (load Examples.ab_bc).1 0 1 "B" ["C"])
    as (_ & _ & H3 & H4 & _);
    [lia | reflexivity | reflexivity | reflexivity | reflexivity |].
  split; [exact H3 | exact H4].
Defined.

(** * A pass on a pair of consecutive entries, read off its result *)

(** Over distinct entries, the iterations after [i] leave the entry at
    index [i] alone and do not move it in or out of [result]. *)
Lemma rd_run_later (h : heap) (entries : list ref) (i : nat) (r : ref) :
  NoDup entries ->
  entries !! i = Some r ->
  forall d,
    (rd_run h entries (i + d)).1 r = (rd_run h entries i).1 r /\
    (r ∈ (rd_run h entries (i + d)).2 <-> r ∈ (rd_run h entries i).2).
Proof.
  intros Hnd Hi d. induction d as [|d [IH1 IH2]].
  - rewrite Nat.add_0_r. split; reflexivity.
  - replace (i + S d) with (S (i + d)) by lia.
    destruct (le_lt_dec (length entries) (S (i + d))) as [Hl|Hl].
    { rewrite rd_run_bound by assumption. split; assumption. }
    rewrite rd_run_S. unfold rd_iter. replace (S (i + d) - 1) with (i + d) by lia.
    destruct (lookup_lt_is_Some_2 entries (i + d)) as [prev Hp]; [lia|].
    destruct (lookup_lt_is_Some_2 entries (S (i + d))) as [cur Hc]; [lia|].
    rewrite Hp, Hc.
    assert (Hne : r <> cur).
    { intros ->. pose proof (NoDup_lookup _ _ _ _ Hnd Hi Hc). lia. }
    destruct (rd_run h entries (i + d)) as [hk res]. cbn [fst snd] in *.
    pose proof (rd_step_result prev cur hk res) as Hres.
    destruct (rd_step prev cur (hk, res)) as [h' res'] eqn:E.
    apply rd_step_spec in E as (Ho & _). cbn [fst snd] in *.
    split.
    + rewrite Ho by assumption. exact IH1.
    + rewrite <- IH2. destruct Hres as [->| ->]; [reflexivity|].
      rewrite elem_of_app, list_elem_of_singleton. tauto.
Qed.

Lemma remove_duplicates_at (h : heap) (entries : list ref) (i : nat) (r : ref) :
  NoDup entries ->
  entries !! i = Some r ->
  (remove_duplicates h entries).1 r = (rd_run h entries i).1 r /\
  (r ∈ (remove_duplicates h entries).2 <-> r ∈ (rd_run h entries i).2).
Proof.
  intros Hnd Hi. pose proof (lookup_lt_Some _ _ _ Hi) as Hlt.
  destruct entries as [|e0 rest]; [simpl in Hlt; lia|].
  rewrite remove_duplicates_run. simpl in Hlt.
  replace (length rest) with (i + (length rest - i)) by lia.
  apply rd_run_later; assumption.
Qed.

Lemma rd_run_not_yet (h : heap) (entries : list ref) (i : nat) (r : ref) :
  NoDup entries ->
  1 <= i ->
  entries !! i = Some r ->
  (r ∉ (rd_run h entries (i - 1)).2) /\ (rd_run h entries (i - 1)).1 r = h r.
Proof.
  intros Hnd Hi Hr. pose proof (rd_run_inv h entries (i - 1)) as H.
  destruct (rd_run h entries (i - 1)) as [hk res].
  destruct H as (_ & Ho & Hs & _). replace (S (i - 1)) with i in * by lia.
  assert (Hnot : r ∉ take i entries)
    by (eapply NoDup_not_in_take; eassumption).
  cbn [fst snd]. split.
  - intros Hin. apply Hnot. eapply elem_of_sublist; eassumption.
  - apply Ho. intros Hin. apply Hnot.
    eapply elem_of_sublist; [exact Hin | apply sublist_drop].
Qed.

(** Counterexample for C3: in [X], [X], [X] the second and the third entry
    both have a non-empty line and the first line of the third is the last
    line of the second, yet the pass removes nothing from the third entry
    and returns it: the second entry had been emptied before the third was
    examined. *)
Lemma pair_counterexample :
  let h := (load Examples.xxx).1 in
  let h' := (remove_duplicates h [0; 1; 2]).1 in
  let out := (remove_duplicates h [0; 1; 2]).2 in
  is_empty (h 1) = false /\ is_empty (h 2) = false /\
  head (get_cleaned_lines (h 2)) = last (get_cleaned_lines (h 1)) /\
  text_lines (h' 2) = ["X"] /\
  text_lines (h' 2) <> tail (text_lines (h 2)) /\
  out = [0; 2].
Proof. vm_compute. split_and!; try reflexivity. discriminate. Qed.

(** C3 (amended). In a pass of [remove_duplicates] over distinct entries,
    let [prev] and [current] be consecutive entries, [current] with a
    non-empty line when the pass starts and [prev] with a non-empty line
    when the pass ends, that is, not emptied by the pass.  If the first
    non-empty line of [current] equals the last non-empty line of [prev],
    the pass removes the first raw line of [current] (nothing is left of a
    single raw line) and keeps its other fields; [current] is absent from
    the returned list when it then has no non-empty line, and is in it
    otherwise.  If the two lines differ, [current] is unchanged and in the
    returned list.  The returned list is a subsequence of the input. *)
Theorem remove_duplicates_consecutive (h : heap) (entries : list ref)
    (i : nat) (prev current : ref) :
  let h' := (remove_duplicates h entries).1 in
  let out := (remove_duplicates h entries).2 in
  NoDup entries ->
  1 <= i ->
  entries !! (i - 1) = Some prev ->
  entries !! i = Some current ->
  is_empty (h current) = false ->
  is_empty (h' prev) = false ->
  out `sublist_of` entries /\
  (head (get_cleaned_lines (h current)) = last (get_cleaned_lines (h prev)) ->
     text_lines (h' current) = tail (text_lines (h current)) /\
     (length (text_lines (h current)) = 1 -> text_lines (h' current) = []) /\
     number (h' current) = number (h current) /\
     start_time (h' current) = start_time (h current) /\
     end_time (h' current) = end_time (h current) /\
     (is_empty (h' current) = true -> current ∉ out) /\
     (is_empty (h' current) = false -> current ∈ out))
  /\
  (head (get_cleaned_lines (h current)) <> last (get_cleaned_lines (h prev)) ->
     h' current = h current /\ current ∈ out).
Proof.
  intros h' out Hnd Hi Hp Hc Hcur Hprev.
  destruct (remove_duplicates_at h entries i current Hnd Hc) as [Hfc Hoc].
  destruct (remove_duplicates_at h entries (i - 1) prev Hnd Hp) as [Hfp _].
  destruct (rd_run_not_yet h entries i current Hnd Hi Hc) as [Hnot Hic].
  fold h' in Hfc, Hfp. fold out in Hoc.
  set (hi := (rd_run h entries (i - 1)).1) in *.
  set (res := (rd_run h entries (i - 1)).2) in *.
  assert (Hip : is_empty (hi prev) = false) by (rewrite <- Hfp; exact Hprev).
  assert (Hicur : is_empty (hi current) = false) by (rewrite Hic; exact Hcur).
  assert (Hlast : last (get_cleaned_lines (hi prev))
                  = last (get_cleaned_lines (h prev))).
  { destruct (rd_run_one_line h entries (i - 1) Hnd prev) as [E|E];
      fold hi in E; unfold get_cleaned_lines; rewrite E; [reflexivity|].
    apply last_filter_tail. rewrite <- E. intros Hnil.
    apply is_empty_cleaned in Hnil. congruence. }
  destruct (remove_duplicates_pair h entries i prev current Hi Hp Hc Hip Hicur)
    as [Hmatch Hdiff].
  fold hi in Hmatch, Hdiff. fold res in Hmatch, Hdiff.
  rewrite Hlast, Hic in Hmatch, Hdiff. rewrite <- Hfc in Hmatch.
  split; [apply remove_duplicates_inv|]. split.
  - intros Heq. destruct (Hmatch Heq) as (H1 & H2 & H3 & H4 & H5 & _ & H7 & H8).
    split_and!; auto.
    + intros He Hin. apply Hoc in Hin. rewrite (H7 He) in Hin. contradiction.
    + intros He. apply Hoc. rewrite (H8 He).
      rewrite elem_of_app, list_elem_of_singleton. auto.
  - intros Hne. destruct (Hdiff Hne) as [H1 H2]. split.
    + rewrite Hfc, H1. exact Hic.
    + apply Hoc. rewrite H2. rewrite elem_of_app, list_elem_of_singleton. auto.
Qed.

Lemma remove_duplicates_consecutive_witness :
  let h := (load Examples.ab_bc).1 in
  text_lines ((remove_duplicates h [0; 1]).1 1) = ["C"] /\
  1 ∈ (remove_duplicates h [0; 1]).2.
Proof.
  intros h.
  assert (Hnd : NoDup [0; 1]).
  { apply NoDup_ListNoDup. repeat constructor; simpl; intuition lia. }
  destruct (remove_duplicates_consecutive h [0; 1] 1 0 1 Hnd)
    as (_ & H & _);
    [lia | reflexivity | reflexivity | reflexivity | reflexivity |].
  destruct (H eq_refl) as (H1 & _ & _ & _ & _ & _ & H7).
  split; [exact H1 | apply H7; reflexivity].
Defined.

(** * The driver *)

(** ** The exceptions of [int] and [str] *)

Lemma int_checked_cases (s : string) :
  ((Z.of_nat (String.length s) <= 4300)%Z /\ int_checked s = inr (Str.to_Z s)) \/
  ((4300 < Z.of_nat (String.length s))%Z /\
   int_checked s = inl (int_error (String.length s))).
Proof.
  unfold int_checked, int_max_str_digits.
  destruct (Z.ltb_spec 4300 (Z.of_nat (String.length s))); [right | left];
    split; auto; lia.
Qed.

Lemma str_checked_inr (n : Z) (s : string) :
  str_checked n = inr s -> s = Str.of_Z n.
Proof.
  unfold str_checked. destruct (_ <? _)%Z; [discriminate|].
  intros [= <-]. reflexivity.
Qed.

Lemma str_checked_inl (n : Z) (msg : string) :
  str_checked n = inl msg -> msg = str_error.
Proof.
  unfold str_checked. destruct (_ <? _)%Z; [|discriminate].
  intros [= <-]. reflexivity.
Qed.

Lemma entries_of_matches_inr (ms : list caps) (es : list SubtitleEntry) :
  entries_of_matches ms = inr es -> es = map entry_of_match ms.
Proof.
  revert es. induction ms as [|m ms IH]; intros es H; simpl in H.
  - injection H as <-. reflexivity.
  - destruct (int_checked_cases (m 1)) as [[_ E]|[_ E]]; rewrite E in H;
      [|discriminate H].
    destruct (entries_of_matches ms) as [msg|es']; [discriminate H|].
    injection H as <-. rewrite (IH es' eq_refl). reflexivity.
Qed.

Lemma entries_of_matches_short (ms : list caps) :
  Forall (fun m => (Z.of_nat (String.length (m 1%nat)) <= 4300)%Z) ms ->
  entries_of_matches ms = inr (map entry_of_match ms).
Proof.
  induction 1 as [|m ms Hm _ IH]; [reflexivity|]. simpl.
  destruct (int_checked_cases (m 1)) as [[_ E]|[Hl _]]; [|lia].
  rewrite E, IH. reflexivity.
Qed.

Lemma entries_of_matches_long (ms : list caps) (m : caps) :
  In m ms ->
  (4300 < Z.of_nat (String.length (m 1%nat)))%Z ->
  exists m', In m' ms /\
    entries_of_matches ms = inl (int_error (String.length (m' 1))).
Proof.
  induction ms as [|m0 ms IH]; intros Hin Hl; [contradiction|]. simpl.
  destruct (int_checked_cases (m0 1)) as [[Hs E]|[_ E]]; rewrite E.
  - destruct Hin as [->|Hin]; [lia|].
    destruct (IH Hin Hl) as (m' & Hm' & E'). rewrite E'.
    exists m'. split; [right; exact Hm' | reflexivity].
  - exists m0. split; [left; reflexivity | reflexivity].
Qed.

Lemma parse_srt_checked_inr (content : string) (es : list SubtitleEntry) :
  parse_srt_checked content = inr es -> es = parse_srt content.
Proof. apply entries_of_matches_inr. Qed.

Lemma lines_checked_inr (es : list SubtitleEntry) (ls : list string) :
  lines_checked es = inr ls -> ls = flat_map entry_lines es.
Proof.
  revert ls. induction es as [|e es IH]; intros ls H; simpl in H.
  - injection H as <-. reflexivity.
  - destruct (str_checked (number e)) as [msg|num] eqn:En; [discriminate H|].
    destruct (lines_checked es) as [msg|ls']; [discriminate H|].
    injection H as <-. apply str_checked_inr in En. subst num.
    rewrite (IH ls' eq_refl). cbn [flat_map]. unfold entry_lines.
    rewrite <- !app_assoc. reflexivity.
Qed.

Lemma format_srt_checked_inr (es : list SubtitleEntry) (text : string) :
  format_srt_checked es = inr text -> text = format_srt es.
Proof.
  unfold format_srt_checked, format_srt.
  destruct (lines_checked es) as [msg|ls] eqn:E; [discriminate|].
  intros [= <-]. rewrite (lines_checked_inr es ls E). reflexivity.
Qed.

(** ** The [try] block, raise point by raise point *)

Module DriverFacts.
Import Driver.

Lemma main_usage (E : env) (argv : list string) :
  length argv <> 3 -> main E argv = mkOutcome [usage] 1 [].
Proof.
  intros H. unfold main.
  destruct (Nat.eqb_spec (length argv) 3); [contradiction | reflexivity].
Qed.

Lemma main_try (E : env) (argv : list string) :
  length argv = 3 ->
  main E argv =
  let run := try_body E (nth 1 argv EmptyString) (nth 2 argv EmptyString)
               (mkWorld [] []) in
  match run.2 with
  | inl msg => mkOutcome (printed run.1 ++ [error_line msg]) 1 (accessed run.1)
  | inr _ => mkOutcome (printed run.1) 0 (accessed run.1)
  end.
Proof.
  intros H. unfold main. rewrite H. cbn [Nat.eqb negb]. cbv zeta.
  destruct (try_body E _ _ _) as [w r]. reflexivity.
Qed.

(** The run of the [try] block: the first statement that raises ends it,
    with what has been printed and accessed until then. *)
Lemma try_body_run (E : env) (i o : string) :
  try_body E i o (mkWorld [] []) =
  match read_file E i with
  | inl msg => (mkWorld [] [Read i], inl msg)
  | inr content =>
      match parse_srt_checked content with
      | inl msg => (mkWorld [] [Read i], inl msg)
      | inr entries =>
          let st := load entries in
          let st' := perform_deep_cleaning st.1 st.2 in
          match format_srt_checked (deref st'.1 st'.2) with
          | inl msg => (mkWorld [] [Read i], inl msg)
          | inr text =>
              match write_file E o text with
              | Some msg => (mkWorld [] [Read i; Write o text], inl msg)
              | None =>
                  match str_checked (Z.of_nat (length entries)) with
                  | inl msg =>
                      (mkWorld [success_line i o] [Read i; Write o text],
                       inl msg)
                  | inr a =>
                      match str_checked (Z.of_nat (length st'.2)) with
                      | inl msg =>
                          (mkWorld [success_line i o]
                             [Read i; Write o text], inl msg)
                      | inr b =>
                          (mkWorld
                             [success_line i o;
                              ("Original entries: " ++ a
                                 ++ ", Cleaned entries: " ++ b)%string]
                             [Read i; Write o text], inr tt)
                      end
                  end
              end
          end
      end
  end.
Proof.
  unfold try_body, bind, read_text, raising, write_text, print.
  cbn [printed accessed app].
  destruct (read_file E i) as [msg|content]; [reflexivity|].
  destruct (parse_srt_checked content) as [msg|entries]; [reflexivity|].
  cbv zeta. unfold load. cbn [fst snd].
  destruct (perform_deep_cleaning _ _) as [h' cleaned]. cbn [fst snd].
  destruct (format_srt_checked (deref h' cleaned)) as [msg|text];
    [reflexivity|].
  cbn [printed accessed app].
  destruct (write_file E o text) as [msg|]; [reflexivity|].
  cbn [printed accessed app].
  destruct (str_checked (Z.of_nat (length entries))) as [msg|a]; [reflexivity|].
  destruct (str_checked (Z.of_nat (length cleaned))) as [msg|b]; reflexivity.
Qed.

End DriverFacts.

(** ** C10: the exit status of the driver *)

(** C10. [main] exits with status 1 in two cases and only then.  When
    [sys.argv] does not have exactly three elements (the script name and
    two arguments) it prints the usage line and accesses no file.  When a
    statement of the [try] block raises, it prints
    ["Error processing file: "] followed by the message of the exception,
    after nothing else or, if the exception comes from formatting the
    counts, after the success line.  The block raises when reading raises,
    when a block number has more digits than [int] converts (no file is
    written then) and when writing raises.  Otherwise [main] exits with
    status 0 after printing the success line and the line with the number
    of parsed entries and the number of cleaned entries, having written the
    text of the cleaned entries. *)
Theorem main_exit_status (E : Driver.env) (argv : list string) :
  let out := Driver.main E argv in
  let input_file := nth 1 argv EmptyString in
  let output_file := nth 2 argv EmptyString in
  (Driver.status out = 1%Z <->
   length argv <> 3 \/ exists msg, Driver.raised E argv = Some msg) /\
  (length argv <> 3 ->
   Driver.stdout out
   = ["Usage: python subtitle_cleaner_v2.py input.srt output.srt"] /\
   Driver.status out = 1%Z /\
   Driver.accesses out = []) /\
  (length argv = 3 ->
   forall msg, Driver.raised E argv = Some msg ->
   Driver.status out = 1%Z /\
   exists before,
     Driver.stdout out
     = before ++ [("Error processing file: " ++ msg)%string] /\
     (before = [] \/
      before = [("Successfully cleaned subtitles from " ++ input_file
                   ++ " to " ++ output_file)%string])) /\
  (length argv = 3 ->
   Driver.raised E argv = None ->
   Driver.status out = 0%Z /\
   exists content,
     Driver.read_file E input_file = inr content /\
     let st := load (parse_srt content) in
     let st' := perform_deep_cleaning st.1 st.2 in
     Driver.stdout out
     = [("Successfully cleaned subtitles from " ++ input_file ++ " to "
           ++ output_file)%string;
        ("Original entries: "
           ++ Str.of_Z (Z.of_nat (length (parse_srt content)))
           ++ ", Cleaned entries: "
           ++ Str.of_Z (Z.of_nat (length st'.2)))%string] /\
     Driver.accesses out
     = [Driver.Read input_file;
        Driver.Write output_file (format_srt (deref st'.1 st'.2))] /\
     Driver.write_file E output_file (format_srt (deref st'.1 st'.2)) = None) /\
  (length argv = 3 ->
   (forall msg, Driver.read_file E input_file = inl msg ->
                Driver.raised E argv = Some msg /\
                Driver.accesses out = [Driver.Read input_file]) /\
   (forall content m,
       Driver.read_file E input_file = inr content ->
       In m (finditer block_pattern content) ->
       (4300 < Z.of_nat (String.length (m 1%nat)))%Z ->
       (exists m', In m' (finditer block_pattern content) /\
                   Driver.raised E argv
                   = Some (int_error (String.length (m' 1%nat)))) /\
       Driver.accesses out = [Driver.Read input_file]) /\
   (forall content text msg,
       Driver.read_file E input_file = inr content ->
       Forall (fun m => (Z.of_nat (String.length (m 1%nat)) <= 4300)%Z)
              (finditer block_pattern content) ->
       (let st := load (parse_srt content) in
        let st' := perform_deep_cleaning st.1 st.2 in
        format_srt_checked (deref st'.1 st'.2) = inr text) ->
       Driver.write_file E output_file text = Some msg ->
       Driver.raised E argv = Some msg)).
Proof.
  intros out input_file output_file.
  destruct (Nat.eq_dec (length argv) 3) as [Hlen|Hlen].
  2:{ unfold out. rewrite (DriverFacts.main_usage E argv Hlen).
      cbn [Driver.stdout Driver.status Driver.accesses].
      split_and!; try tauto; try contradiction. }
  assert (Hout : out = Driver.main E argv) by reflexivity.
  rewrite (DriverFacts.main_try E argv Hlen) in Hout. cbv zeta in Hout.
  unfold Driver.raised. fold input_file output_file in Hout |- *.
  rewrite DriverFacts.try_body_run in Hout |- *.
  destruct (Driver.read_file E input_file) as [m0|content] eqn:Hread.
  { cbn [fst snd Driver.printed Driver.accessed app] in Hout |- *.
    rewrite Hout. cbn [Driver.stdout Driver.status Driver.accesses].
    split_and!; try congruence.
    - split; eauto.
    - intros _ msg [= <-]. split; [reflexivity|]. exists []. auto.
    - intros _. split_and!; try congruence.
      intros msg [= <-]. auto. }
  destruct (parse_srt_checked content) as [m1|entries] eqn:Hparse.
  { cbn [fst snd Driver.printed Driver.accessed app] in Hout |- *.
    rewrite Hout. cbn [Driver.stdout Driver.status Driver.accesses].
    split_and!; try congruence.
    - split; eauto.
    - intros _ msg [= <-]. split; [reflexivity|]. exists []. auto.
    - intros _. split_and!; try congruence.
      + intros c m [= <-] Hin Hl.
        destruct (entries_of_matches_long _ m Hin Hl) as (m' & Hm' & E').
        unfold parse_srt_checked in Hparse. rewrite E' in Hparse.
        injection Hparse as <-. split; [eauto | reflexivity].
      + intros c text msg [= <-] Hshort _ _.
        apply entries_of_matches_short in Hshort.
        unfold parse_srt_checked in Hparse. congruence. }
  pose proof (parse_srt_checked_inr content entries Hparse) as ->.
  assert (Hlong : forall m, In m (finditer block_pattern content) ->
                            (4300 < Z.of_nat (String.length (m 1%nat)))%Z ->
                            False).
  { intros m Hin Hl.
    destruct (entries_of_matches_long _ m Hin Hl) as (m' & _ & E').
    unfold parse_srt_checked in Hparse. congruence. }
  cbv zeta in Hout |- *.
  set (st := load (parse_srt content)) in *.
  set (st' := perform_deep_cleaning st.1 st.2) in *.
  assert (Hno_long : forall (c : string) (m : caps) (P : Prop),
             @inr string string content = inr c ->
             In m (finditer block_pattern c) ->
             (4300 < Z.of_nat (String.length (m 1%nat)))%Z -> P).
  { intros c m P [= <-] Hin Hl. destruct (Hlong m Hin Hl). }
  destruct (format_srt_checked (deref st'.1 st'.2)) as [m2|text] eqn:Hfmt.
  { cbn [fst snd Driver.printed Driver.accessed app] in Hout |- *.
    rewrite Hout. cbn [Driver.stdout Driver.status Driver.accesses].
    split_and!; try congruence.
    - split; eauto.
    - intros _ msg [= <-]. split; [reflexivity|]. exists []. auto.
    - intros _. split_and!; try congruence.
      + intros c m Hc Hin Hl. exact (Hno_long c m _ Hc Hin Hl).
      + intros c text msg [= <-] _ Hf _. cbv zeta in Hf. fold st st' in Hf.
        congruence. }
  pose proof (format_srt_checked_inr _ _ Hfmt) as ->.
  assert (Hwrites : forall c text msg,
             @inr string string content = inr c ->
             (let st := load (parse_srt c) in
              let st' := perform_deep_cleaning st.1 st.2 in
              format_srt_checked (deref st'.1 st'.2) = inr text) ->
             Driver.write_file E output_file text = Some msg ->
             Driver.write_file E output_file (format_srt (deref st'.1 st'.2))
             = Some msg).
  { intros c text msg [= <-] Hf Hw. cbv zeta in Hf. fold st st' in Hf.
    rewrite Hfmt in Hf. injection Hf as <-. exact Hw. }
  destruct (Driver.write_file E output_file _) as [m3|] eqn:Hwrite.
  { cbn [fst snd Driver.printed Driver.accessed app] in Hout |- *.
    rewrite Hout. cbn [Driver.stdout Driver.status Driver.accesses].
    split_and!; try congruence.
    - split; eauto.
    - intros _ msg [= <-]. split; [reflexivity|]. exists []. auto.
    - intros _. split_and!; try congruence.
      + intros c m Hc Hin Hl. exact (Hno_long c m _ Hc Hin Hl).
      + intros c text msg Hc _ Hf Hw.
        pose proof (Hwrites c text msg Hc Hf Hw). congruence. }
  destruct (str_checked (Z.of_nat (length (parse_srt content))))
    as [m4|a] eqn:Ha.
  { cbn [fst snd Driver.printed Driver.accessed app] in Hout |- *.
    rewrite Hout. cbn [Driver.stdout Driver.status Driver.accesses].
    split_and!; try congruence.
    - split; eauto.
    - intros _ msg [= <-]. split; [reflexivity|].
      exists [Driver.success_line input_file output_file]. auto.
    - intros _. split_and!; try congruence.
      + intros c m Hc Hin Hl. exact (Hno_long c m _ Hc Hin Hl).
      + intros c text msg Hc _ Hf Hw.
        pose proof (Hwrites c text msg Hc Hf Hw). congruence. }
  apply str_checked_inr in Ha. subst a.
  destruct (str_checked (Z.of_nat (length st'.2))) as [m5|b] eqn:Hb.
  { cbn [fst snd Driver.printed Driver.accessed app] in Hout |- *.
    rewrite Hout. cbn [Driver.stdout Driver.status Driver.accesses].
    split_and!; try congruence.
    - split; eauto.
    - intros _ msg [= <-]. split; [reflexivity|].
      exists [Driver.success_line input_file output_file]. auto.
    - intros _. split_and!; try congruence.
      + intros c m Hc Hin Hl. exact (Hno_long c m _ Hc Hin Hl).
      + intros c text msg Hc _ Hf Hw.
        pose proof (Hwrites c text msg Hc Hf Hw). congruence. }
  apply str_checked_inr in Hb. subst b.
  cbn [fst snd Driver.printed Driver.accessed app] in Hout |- *.
  rewrite Hout. cbn [Driver.stdout Driver.status Driver.accesses].
  split_and!; try congruence.
  - split; [discriminate|]. intros [H|[m H]]; congruence.
  - intros _ _. split; [reflexivity|]. exists content.
    split; [reflexivity|]. fold st st'. split_and!; auto.
  - intros _. split_and!; try congruence.
    + intros c m Hc Hin Hl. exact (Hno_long c m _ Hc Hin Hl).
    + intros c text msg Hc _ Hf Hw.
      pose proof (Hwrites c text msg Hc Hf Hw). congruence.
Qed.

(** A block number of 4301 digits: [int] raises, [main] prints the error
    and exits with status 1 without writing. *)
Example main_long_number :
  Driver.main (constant_files long_number_srt)
    ["subtitle_cleaner.py"; "in.srt"; "out.srt"]
  = Driver.mkOutcome
      ["Error processing file: Exceeds the limit (4300 digits) for integer string conversion: value has 4301 digits; use sys.set_int_max_str_digits() to increase the limit"]
      1 [Driver.Read "in.srt"].
Proof. vm_compute. reflexivity. Qed.

(** ** A file without blocks *)

Lemma parse_srt_checked_nil (content : string) :
  parse_srt content = [] -> parse_srt_checked content = inr [].
Proof.
  unfold parse_srt, parse_srt_checked. intros H.
  apply map_eq_nil in H. rewrite H. reflexivity.
Qed.

(** X15. When [main] is given two arguments and the input file has no
    digit in it, no block is found: [main] writes the empty text to the
    output file and, when writing succeeds, reports the counts 0 and 0 and
    exits with status 0. *)
Theorem main_no_entries (E : Driver.env) (argv : list string)
    (content : string) :
  length argv = 3 ->
  Driver.read_file E (nth 1 argv EmptyString) = inr content ->
  Str.forallb (fun a => negb (Str.is_digit a)) content = true ->
  let out := Driver.main E argv in
  Driver.accesses out
  = [Driver.Read (nth 1 argv EmptyString);
     Driver.Write (nth 2 argv EmptyString) EmptyString] /\
  (Driver.write_file E (nth 2 argv EmptyString) EmptyString = None ->
   Driver.status out = 0%Z /\
   Driver.stdout out
   = [Driver.success_line (nth 1 argv EmptyString) (nth 2 argv EmptyString);
      "Original entries: 0, Cleaned entries: 0"]).
Proof.
  intros Hlen Hread Hnd out. unfold out.
  assert (Hparse : parse_srt_checked content = inr []).
  { apply parse_srt_checked_nil.
    rewrite <- (append_nil_r content), finditer_skip_prefix_parse by assumption.
    reflexivity. }
  rewrite (DriverFacts.main_try E argv Hlen). cbv zeta.
  rewrite DriverFacts.try_body_run, Hread, Hparse. cbv zeta.
  change (perform_deep_cleaning (load []).1 (load []).2)
    with ((load []).1, @nil ref).
  cbn [fst snd deref map length].
  change (format_srt_checked []) with (@inr string string EmptyString).
  change (str_checked (Z.of_nat 0)) with (@inr string string "0").
  cbv iota.
  destruct (Driver.write_file E (nth 2 argv EmptyString) EmptyString) as [msg|].
  - split; [reflexivity | discriminate].
  - split; [reflexivity|]. intros _. split; reflexivity.
Qed.

Lemma main_no_entries_witness :
  let out := Driver.main (constant_files "no blocks here")
               ["subtitle_cleaner.py"; "in.srt"; "out.srt"] in
  Driver.accesses out
  = [Driver.Read "in.srt"; Driver.Write "out.srt" EmptyString] /\
  Driver.status out = 0%Z.
Proof.
  intros out.
  destruct (main_no_entries (constant_files "no blocks here")
              ["subtitle_cleaner.py"; "in.srt"; "out.srt"] "no blocks here"
              eq_refl eq_refl eq_refl) as [Ha Hs].
  split; [exact Ha | exact (proj1 (Hs eq_refl))].
Defined.
